(** * Eses Image Offset: a shallow embedding of [image_offset.py]

    The development follows the source file top to bottom:

    - [PyStr]: the Python string primitives the colour parser calls
      ([str.strip], [str.split], [int(s, base)], [str(int)]);
    - [_parse_color_string];
    - [Np]: the tensor/array boundary ([np.clip], [astype(np.uint8)],
      division by 255);
    - [PIL]: the Pillow operations the node calls ([Image.new],
      [Image.paste], [ImageChops.offset], [ImageOps.invert], [putalpha],
      [Image.alpha_composite], [convert], [resize]);
    - [apply_image_transformations].

    Conventions.  A Python [str] is a list of code points below 256
    (type [ascii]).  A byte of an 8-bit image is a [Z] in [0,255].  A tensor
    element is the rational number it denotes: values are kept in lowest
    terms ([Qred]), so that equal numbers are equal terms; the rounding of
    single-precision arithmetic is not part of the model.  The embedding
    starts from the arrays that [tensor.cpu().numpy().squeeze()] yields for a
    batch of one: [H x W x C] with three or four channels for an image,
    [H x W] for a mask. *)

From Stdlib Require Import ZArith QArith Qround Qreduction List Lia Bool.
From Stdlib Require Import Ascii String DecimalString.
Import ListNotations.

Local Open Scope Z_scope.

(* ------------------------------------------------------------------ *)
(** ** Python string primitives *)

Module PyStr.

(** A [str] as the list of its code points. *)
Definition str := list ascii.

Definition of_string (s : string) : str := list_ascii_of_string s.
Definition to_string (s : str) : string := string_of_list_ascii s.

Definition code (c : ascii) : Z := Z.of_N (N_of_ascii c).

(** [str.isspace] on code points below 256: TAB..CR, FS..US, SPACE,
    NEL (0x85) and NBSP (0xA0). *)
Definition isspace (c : ascii) : bool :=
  let n := code c in
  ((9 <=? n) && (n <=? 13)) || ((28 <=? n) && (n <=? 32))
  || (n =? 133) || (n =? 160).

Fixpoint lstrip (s : str) : str :=
  match s with
  | c :: s' => if isspace c then lstrip s' else s
  | [] => []
  end.

Definition rstrip (s : str) : str := rev (lstrip (rev s)).

(** [s.strip()] *)
Definition strip (s : str) : str := rstrip (lstrip s).

(** [s.split(sep)] for a one-character separator: never the empty list. *)
Fixpoint split (sep : ascii) (s : str) : list str :=
  match s with
  | [] => [[]]
  | c :: s' =>
      if Ascii.eqb c sep then [] :: split sep s'
      else match split sep s' with
           | p :: ps => (c :: p) :: ps
           | [] => [[c]]
           end
  end.

(** [s[i:j]] for [0 <= i <= j]. *)
Definition slice (s : str) (i j : nat) : str := firstn (j - i) (skipn i s).

(** CPython's [_PyLong_DigitValue]: 37 marks "not a digit". *)
Definition digit_value (c : ascii) : Z :=
  let n := code c in
  if (48 <=? n) && (n <=? 57) then n - 48
  else if (97 <=? n) && (n <=? 122) then n - 87
  else if (65 <=? n) && (n <=? 90) then n - 55
  else 37.

Definition underscore : ascii := "_"%char.

(** The digit loop of [PyLong_FromString]: digits below [base], single
    underscores between digits only.  [prev_us] records that the previous
    character was an underscore, [seen] that a digit was read.  Returns the
    value and the unread rest. *)
Fixpoint digits (base : Z) (s : str) (acc : Z) (prev_us seen : bool)
  : option (Z * str) :=
  match s with
  | c :: s' =>
      if Ascii.eqb c underscore then
        if prev_us then None else digits base s' acc true seen
      else if digit_value c <? base then
        digits base s' (acc * base + digit_value c) false true
      else if prev_us || negb seen then None else Some (acc, s)
  | [] => if prev_us || negb seen then None else Some (acc, [])
  end.

(** An optional sign. *)
Definition strip_sign (s : str) : Z * str :=
  match s with
  | c :: r =>
      if Ascii.eqb c "+"%char then (1, r)
      else if Ascii.eqb c "-"%char then (-1, r)
      else (1, s)
  | [] => (1, [])
  end.

(** With base 16 an optional [0x] or [0X], and one underscore after it. *)
Definition strip_prefix (base : Z) (s : str) : str :=
  match s with
  | c :: x :: r =>
      if (base =? 16) && Ascii.eqb c "0"%char
         && (Ascii.eqb x "x"%char || Ascii.eqb x "X"%char)
      then match r with
           | u :: r' => if Ascii.eqb u underscore then r' else r
           | [] => r
           end
      else s
  | _ => s
  end.

Definition starts_with_underscore (s : str) : bool :=
  match s with
  | c :: _ => Ascii.eqb c underscore
  | [] => false
  end.

(** [int(s, base)] for [base] 10 or 16, after CPython's
    [PyLong_FromString]: leading whitespace, sign, prefix, digits,
    trailing whitespace, and nothing else.  [None] is [ValueError]. *)
Definition int (base : Z) (s : str) : option Z :=
  let '(sign, s2) := strip_sign (lstrip s) in
  let s3 := strip_prefix base s2 in
  if starts_with_underscore s3 then None
  else
    match digits base s3 0 false false with
    | Some (v, rest) =>
        match lstrip rest with
        | [] => Some (sign * v)
        | _ => None
        end
    | None => None
    end.

(** [str(n)] for an integer [n]. *)
Definition repr (n : Z) : str := of_string (NilZero.string_of_int (Z.to_int n)).

End PyStr.

(* ------------------------------------------------------------------ *)
(** ** The colour parser *)

(** [[f x for x in xs]] where [f] may raise: the first failure aborts. *)
Fixpoint try_map {A B} (f : A -> option B) (xs : list A) : option (list B) :=
  match xs with
  | [] => Some []
  | x :: xs' =>
      match f x with
      | Some y =>
          match try_map f xs' with
          | Some ys => Some (y :: ys)
          | None => None
          end
      | None => None
      end
  end.

(** The first [try] block: [Some t] is [return t]; [None] is "fell through"
    (no length matched, or [ValueError] was caught). *)
Definition parse_hex (color_string : PyStr.str) : option (list Z) :=
  if (List.length color_string =? 6)%nat then
    match try_map (fun i => PyStr.int 16 (PyStr.slice color_string i (i + 2)))
            [0; 2; 4]%nat with
    | Some t => Some (t ++ [255])
    | None => None
    end
  else if (List.length color_string =? 8)%nat then
    try_map (fun i => PyStr.int 16 (PyStr.slice color_string i (i + 2)))
      [0; 2; 4; 6]%nat
  else None.

(** The second [try] block. *)
Definition parse_decimal (color_string : PyStr.str) : option (list Z) :=
  match try_map (fun p => PyStr.int 10 (PyStr.strip p))
          (PyStr.split ","%char color_string) with
  | Some parts =>
      if (List.length parts =? 3)%nat then Some (parts ++ [255])
      else if (List.length parts =? 4)%nat then Some parts
      else None
  | None => None
  end.

Definition _parse_color_string (color_string : string) : list Z :=
  let color_string := PyStr.strip (PyStr.of_string color_string) in
  match color_string with
  | [] => [0; 0; 0; 0]
  | _ =>
      match parse_hex color_string with
      | Some t => t
      | None =>
          match parse_decimal color_string with
          | Some t => t
          | None => [0; 0; 0; 0]
          end
      end
  end.

(* ------------------------------------------------------------------ *)
(** ** The array boundary (NumPy / torch) *)

Module Np.

(** [np.clip(x, lo, hi)] *)
Definition clip (x lo hi : Q) : Q :=
  if Qle_bool x lo then lo else if Qle_bool hi x then hi else x.

(** [np.clip(255. * x, 0, 255).astype(np.uint8)]: the cast truncates, which
    on the clipped (non-negative) value is the floor. *)
Definition to_uint8 (x : Q) : Z :=
  Qfloor (clip (inject_Z 255 * x) (inject_Z 0) (inject_Z 255)).

(** [v.astype(np.float32) / 255.0] for a byte [v]. *)
Definition div255 (v : Z) : Q := Qred (inject_Z v / inject_Z 255).

(** [1.0 - x] *)
Definition one_minus (x : Q) : Q := Qred (1 - x).

(** [torch.zeros(h, w)] and [torch.zeros(h, w, c)] as nested lists. *)
Definition zeros2 (h w : nat) : list (list Q) := repeat (repeat 0%Q w) h.
Definition zeros3 (h w c : nat) : list (list (list Q)) :=
  repeat (repeat (repeat 0%Q c) w) h.

(** [arr.shape] of an [H x W ...] array. *)
Definition shape0 {A} (arr : list (list A)) : nat := List.length arr.
Definition shape1 {A} (arr : list (list A)) : nat :=
  match arr with
  | r :: _ => List.length r
  | [] => 0%nat
  end.
(** [arr.shape[-1]] of an [H x W x C] array. *)
Definition shape_last {A} (arr : list (list (list A))) : nat :=
  match arr with
  | (p :: _) :: _ => List.length p
  | _ => 0%nat
  end.

End Np.

(* ------------------------------------------------------------------ *)
(** ** Pillow *)

Module PIL.

(** An image: its [size] and its rows of pixels, top to bottom. *)
Record image (P : Type) : Type :=
  mk_image { width : nat; height : nat; rows : list (list P) }.
Arguments mk_image {P} _ _ _.
Arguments width {P} _.
Arguments height {P} _.
Arguments rows {P} _.

(** The pixel types of the three modes the node uses. *)
Definition L := Z.
Definition RGB := (Z * Z * Z)%type.
Definition RGBA := (Z * Z * Z * Z)%type.

(** What a read outside the stored rows yields; no operation below reads
    outside a well-formed image. *)
Class Pixel (P : Type) := blank : P.
#[export] Instance Pixel_L : Pixel L := 0.
#[export] Instance Pixel_RGB : Pixel RGB := (0, 0, 0).
#[export] Instance Pixel_RGBA : Pixel RGBA := (0, 0, 0, 0).

Definition getpixel {P} `{Pixel P} (im : image P) (x y : nat) : P :=
  nth x (nth y (rows im) []) blank.

(** The image of size [w x h] whose pixel at [(x, y)] is [f x y]. *)
Definition tabulate {P} (w h : nat) (f : nat -> nat -> P) : image P :=
  mk_image w h (map (fun y => map (fun x => f x y) (seq 0 w)) (seq 0 h)).

(** Rows and size agree. *)
Definition well_formed {P} (im : image P) : Prop :=
  List.length (rows im) = height im /\
  Forall (fun r => List.length r = width im) (rows im).

(** libImaging's [CLIP8]. *)
Definition clip8 (v : Z) : Z := if v <=? 0 then 0 else if v <? 256 then v else 255.

(** [Image.new('L', (w, h), color)] *)
Definition new_L (w h : nat) (color : Z) : image L :=
  tabulate w h (fun _ _ => clip8 color).

(** [Image.new('RGBA', (w, h), color)] for a colour tuple: three
    components get alpha 255; each component is clipped to a byte.  The
    parser always hands over four components. *)
Definition ink_RGBA (color : list Z) : RGBA :=
  match color with
  | [r; g; b; a] => (clip8 r, clip8 g, clip8 b, clip8 a)
  | [r; g; b] => (clip8 r, clip8 g, clip8 b, 255)
  | _ => blank
  end.
Definition new_RGBA (w h : nat) (color : list Z) : image RGBA :=
  tabulate w h (fun _ _ => ink_RGBA color).

(** [Image.fromarray(arr, mode)]: size is [(shape[1], shape[0])]. *)
Definition fromarray_L (arr : list (list Z)) : image L :=
  tabulate (Np.shape1 arr) (Np.shape0 arr)
    (fun x y => nth x (nth y arr []) 0).
Definition fromarray_RGB (arr : list (list (list Z))) : image RGB :=
  tabulate (Np.shape1 arr) (Np.shape0 arr)
    (fun x y => let p := nth x (nth y arr []) [] in
                (nth 0 p 0, nth 1 p 0, nth 2 p 0)).
Definition fromarray_RGBA (arr : list (list (list Z))) : image RGBA :=
  tabulate (Np.shape1 arr) (Np.shape0 arr)
    (fun x y => let p := nth x (nth y arr []) [] in
                (nth 0 p 0, nth 1 p 0, nth 2 p 0, nth 3 p 0)).

(** [np.array(im)] *)
Definition toarray_L (im : image L) : list (list Z) := rows im.
Definition toarray_RGB (im : image RGB) : list (list (list Z)) :=
  map (map (fun p : RGB => let '(r, g, b) := p in [r; g; b])) (rows im).

(** [im.convert('RGBA')] of an RGB image: opaque alpha. *)
Definition convert_RGBA (im : image RGB) : image RGBA :=
  tabulate (width im) (height im)
    (fun x y => let '(r, g, b) := getpixel im x y in (r, g, b, 255)).

(** [im.convert('RGB')] of an RGBA image: the alpha band is dropped. *)
Definition convert_RGB (im : image RGBA) : image RGB :=
  tabulate (width im) (height im)
    (fun x y => let '(r, g, b, _) := getpixel im x y in (r, g, b)).

(** [im.split()[-1]] of an RGBA image: its alpha band. *)
Definition alpha_band (im : image RGBA) : image L :=
  tabulate (width im) (height im)
    (fun x y => let '(_, _, _, a) := getpixel im x y in a).

(** [im.putalpha(alpha)] with an L image of the same size. *)
Definition putalpha (im : image RGBA) (alpha : image L) : image RGBA :=
  tabulate (width im) (height im)
    (fun x y => let '(r, g, b, _) := getpixel im x y in
                (r, g, b, getpixel alpha x y)).

(** [ImageOps.invert(im)] on an L image: the lookup table [255 - v]. *)
Definition invert (im : image L) : image L :=
  tabulate (width im) (height im) (fun x y => 255 - getpixel im x y).

(** [ImageChops.offset(im, xoffset, yoffset)], after libImaging's
    [ImagingOffset]; [%] is C's remainder ([Z.rem]). *)
Definition offset_start (size off : Z) : Z :=
  let off := Z.rem off size in
  let off := size - off in
  if off <? 0 then off + size else off.

Definition offset {P} `{Pixel P} (im : image P) (xoffset yoffset : Z)
  : image P :=
  let xsize := Z.of_nat (width im) in
  let ysize := Z.of_nat (height im) in
  let xoffset := offset_start xsize xoffset in
  let yoffset := offset_start ysize yoffset in
  tabulate (width im) (height im)
    (fun x y =>
       let yi := Z.rem (Z.of_nat y + yoffset) ysize in
       let xi := Z.rem (Z.of_nat x + xoffset) xsize in
       getpixel im (Z.to_nat xi) (Z.to_nat yi)).

(** The source pixel that [paste] at [(ox, oy)] puts on [(x, y)], if the
    pasted image of size [w x h] covers it. *)
Definition paste_source (w h : nat) (ox oy : Z) (x y : nat)
  : option (nat * nat) :=
  let sx := Z.of_nat x - ox in
  let sy := Z.of_nat y - oy in
  if (0 <=? sx) && (sx <? Z.of_nat w) && (0 <=? sy) && (sy <? Z.of_nat h)
  then Some (Z.to_nat sx, Z.to_nat sy)
  else None.

(** [dst.paste(src, (ox, oy))]: the part of [src] that falls on the canvas
    replaces it. *)
Definition paste {P} `{Pixel P} (dst src : image P) (ox oy : Z) : image P :=
  tabulate (width dst) (height dst)
    (fun x y =>
       match paste_source (width src) (height src) ox oy x y with
       | Some (sx, sy) => getpixel src sx sy
       | None => getpixel dst x y
       end).

(** libImaging's [DIV255] and [BLEND8]. *)
Definition div255 (a : Z) : Z :=
  let tmp := a + 128 in Z.shiftr (Z.shiftr tmp 8 + tmp) 8.
Definition blend8 (mask in1 in2 : Z) : Z :=
  div255 (in1 * (255 - mask) + in2 * mask).

Definition blend_RGBA (m : Z) (out inp : RGBA) : RGBA :=
  let '(r1, g1, b1, a1) := out in
  let '(r2, g2, b2, a2) := inp in
  (blend8 m r1 r2, blend8 m g1 g2, blend8 m b1 b2, blend8 m a1 a2).

(** [dst.paste(src, (ox, oy), mask)] with an L mask of the size of [src]:
    where the mask is 255 the source is copied, where it is 0 the canvas
    is kept, values in between mix the two, alpha band included. *)
Definition paste_mask (dst src : image RGBA) (ox oy : Z) (mask : image L)
  : image RGBA :=
  tabulate (width dst) (height dst)
    (fun x y =>
       match paste_source (width src) (height src) ox oy x y with
       | Some (sx, sy) =>
           blend_RGBA (getpixel mask sx sy) (getpixel dst x y)
             (getpixel src sx sy)
       | None => getpixel dst x y
       end).

(** [Image.alpha_composite(dst, src)], after libImaging's
    [ImagingAlphaComposite] (7 bits of extra precision). *)
Definition shift_for_div255 (a : Z) : Z := Z.shiftr (Z.shiftr a 8 + a) 8.

Definition composite_pixel (dst src : RGBA) : RGBA :=
  let '(dr, dg, db, da) := dst in
  let '(sr, sg, sb, sa) := src in
  if sa =? 0 then dst
  else
    let blend := da * (255 - sa) in
    let outa255 := sa * 255 + blend in
    let coef1 := (sa * 255 * 255 * 128) / outa255 in
    let coef2 := 255 * 128 - coef1 in
    let chan s d :=
      Z.shiftr (shift_for_div255 (s * coef1 + d * coef2 + 128 * 128)) 7 in
    (chan sr dr, chan sg dg, chan sb db, shift_for_div255 (outa255 + 128)).

Definition alpha_composite (dst src : image RGBA) : image RGBA :=
  tabulate (width dst) (height dst)
    (fun x y => composite_pixel (getpixel dst x y) (getpixel src x y)).

(** [im.resize((w, h), Image.NEAREST)]: each destination pixel takes the
    source pixel under its centre, row and column computed exactly. *)
Definition nearest (src dst i : nat) : nat :=
  ((2 * i + 1) * src / (2 * dst))%nat.
Definition resize_nearest {P} `{Pixel P} (im : image P) (w h : nat)
  : image P :=
  tabulate w h
    (fun x y =>
       getpixel im (nearest (width im) w x) (nearest (height im) h y)).

End PIL.

(* ------------------------------------------------------------------ *)
(** ** The node: [EsesImageOffset.apply_image_transformations] *)

Import PIL.

(** Tensors as nested lists: [H x W] (a squeezed mask), [H x W x C] (a
    squeezed image, or a mask with its batch axis), [1 x H x W x C]. *)
Definition tensor2 := list (list Q).
Definition tensor3 := list (list (list Q)).
Definition tensor4 := list (list (list (list Q))).

(** The returned tuple, fields named after [RETURN_NAMES]. *)
Record outputs : Type := mk_outputs {
  IMAGE : tensor4;
  MASK : tensor3;
  offset_x_out : Z;
  offset_y_out : Z;
  info : string
}.

(** The local variables the phases of the function share. *)
Record locals : Type := mk_locals {
  img_pil : option (PIL.image RGBA);
  mask_pil : option (PIL.image L);
  current_width : nat;
  current_height : nat
}.

Definition size {P} (im : PIL.image P) : nat * nat := (width im, height im).

Definition size_eqb (a b : nat * nat) : bool :=
  (fst a =? fst b)%nat && (snd a =? snd b)%nat.

Definition is_some {A} (o : option A) : bool :=
  match o with
  | Some _ => true
  | None => false
  end.

(** Lines 92-98: the image tensor as an RGBA Pillow image. *)
Definition image_to_pil (image : tensor3) : PIL.image RGBA :=
  let arr := map (map (map Np.to_uint8)) image in
  if (Np.shape_last image =? 4)%nat then fromarray_RGBA arr
  else convert_RGBA (fromarray_RGB arr).

(** Lines 102-103: the mask tensor as an L Pillow image. *)
Definition mask_to_pil (mask : tensor2) : PIL.image L :=
  fromarray_L (map (map Np.to_uint8) mask).

(** Lines 86-115, "Initialize PIL images and dimensions". *)
Definition initialize (image : option tensor3) (mask : option tensor2)
  : locals :=
  let img_pil := option_map image_to_pil image in
  let '(current_width, current_height) :=
    match img_pil with
    | Some im => size im
    | None => (0, 0)%nat
    end in
  let '(mask_pil, (current_width, current_height)) :=
    match mask with
    | Some m =>
        let mask_pil := mask_to_pil m in
        (Some mask_pil,
         if is_some img_pil then (current_width, current_height)
         else size mask_pil)
    | None =>
        (match image with
         | Some _ => Some (new_L current_width current_height 255)
         | None => None
         end, (current_width, current_height))
    end in
  let mask_pil :=
    match img_pil, mask_pil with
    | Some im, Some mp =>
        if negb (size_eqb (size im) (size mp))
        then Some (resize_nearest mp (width im) (height im))
        else Some mp
    | _, _ => mask_pil
    end in
  mk_locals img_pil mask_pil current_width current_height.

(** Lines 122-128: the offset of the image. *)
Definition offset_image (offset_x offset_y : Z) (wrap_around : string)
    (unified_fill_color_tuple : list Z) (current_width current_height : nat)
    (img_pil : PIL.image RGBA) : PIL.image RGBA :=
  if String.eqb wrap_around "On" then offset img_pil offset_x offset_y
  else
    let temp_img :=
      new_RGBA current_width current_height unified_fill_color_tuple in
    paste_mask temp_img img_pil offset_x offset_y (alpha_band img_pil).

(** Line 132. *)
Definition mask_fill_value (is_mask_connected : bool) : Z :=
  if is_mask_connected then 255 else 0.

(** Line 136: the canvas the mask is pasted on in clip mode. *)
Definition temp_mask_img (is_mask_connected : bool)
    (current_width current_height : nat) : PIL.image L :=
  new_L current_width current_height (mask_fill_value is_mask_connected).

(** Lines 134-137: the offset of the mask. *)
Definition offset_mask (offset_x offset_y : Z) (wrap_around : string)
    (is_mask_connected : bool) (current_width current_height : nat)
    (mask_pil : PIL.image L) : PIL.image L :=
  if String.eqb wrap_around "On" then offset mask_pil offset_x offset_y
  else
    paste (temp_mask_img is_mask_connected current_width current_height)
      mask_pil offset_x offset_y.

(** Lines 119-137, "Apply Offset". *)
Definition apply_offset (offset_x offset_y : Z) (wrap_around : string)
    (unified_fill_color_tuple : list Z) (is_mask_connected : bool)
    (st : locals) : locals :=
  let w := current_width st in
  let h := current_height st in
  mk_locals
    (option_map
       (offset_image offset_x offset_y wrap_around unified_fill_color_tuple
          w h) (img_pil st))
    (option_map
       (offset_mask offset_x offset_y wrap_around is_mask_connected w h)
       (mask_pil st))
    w h.

(** Lines 146-156, "Apply incoming mask to image's alpha channel". *)
Definition apply_mask_to_alpha (is_mask_connected : bool) (st : locals)
  : locals :=
  match img_pil st, mask_pil st with
  | Some im, Some mp =>
      if is_mask_connected then
        let inverted_mask_for_alpha := invert mp in
        mk_locals (Some (putalpha im inverted_mask_for_alpha)) (Some mp)
          (current_width st) (current_height st)
      else st
  | _, _ => st
  end.

(** Lines 170-176. *)
Definition fill_color_for_composite (unified_fill_color_tuple : list Z)
  : list Z :=
  if (List.length unified_fill_color_tuple =? 3)%nat
  then unified_fill_color_tuple ++ [255]
  else unified_fill_color_tuple.

(** Lines 164-185, "Composite image over fill_color background": the
    flattened RGB image. *)
Definition composite_over_fill (unified_fill_color_tuple : list Z)
    (img_pil : PIL.image RGBA) : PIL.image RGB :=
  let background_img :=
    new_RGBA (width img_pil) (height img_pil)
      (fill_color_for_composite unified_fill_color_tuple) in
  convert_RGB (alpha_composite background_img img_pil).

(** Lines 190-191, "Invert Mask for output". *)
Definition invert_for_output (invert_mask_output : string)
    (mask_pil : PIL.image L) : PIL.image L :=
  if String.eqb invert_mask_output "Yes" then invert mask_pil else mask_pil.

(** Lines 198-202: the image tensor. *)
Definition image_tensor (current_width current_height : nat)
    (img : option (PIL.image RGB)) : tensor4 :=
  match img with
  | Some im => [map (map (map Np.div255)) (toarray_RGB im)]
  | None => [Np.zeros3 current_height current_width 3]
  end.

(** Lines 204-218: the mask tensor. *)
Definition mask_tensor (is_mask_connected : bool)
    (current_width current_height : nat) (mask : option (PIL.image L))
  : tensor3 :=
  match mask with
  | Some mp =>
      let mask_np_float := map (map Np.div255) (toarray_L mp) in
      if is_mask_connected then [map (map Np.one_minus) mask_np_float]
      else [mask_np_float]
  | None => [Np.zeros2 current_height current_width]
  end.

(** Line 220. *)
Definition output_info (offset_x offset_y : Z) (current_width
    current_height : nat) (wrap_around invert_mask_output : string)
  : string :=
  let num z := PyStr.to_string (PyStr.repr z) in
  ("Offset: (" ++ num offset_x ++ ", " ++ num offset_y ++ "), Size: "
   ++ num (Z.of_nat current_width) ++ "x" ++ num (Z.of_nat current_height)
   ++ ", Wrapped: " ++ wrap_around ++ ", Mask Output Inverted: "
   ++ invert_mask_output)%string.

(** The images and sizes once the offset and the alpha phases are done
    (lines 86-156): what the composite and the output conversion read. *)
Definition transformed (offset_x offset_y : Z) (wrap_around fill_color : string)
    (image : option tensor3) (mask : option tensor2) : locals :=
  let is_mask_connected := is_some mask in
  let unified_fill_color_tuple := _parse_color_string fill_color in
  apply_mask_to_alpha is_mask_connected
    (apply_offset offset_x offset_y wrap_around unified_fill_color_tuple
       is_mask_connected (initialize image mask)).

Definition apply_image_transformations (offset_x offset_y : Z)
    (wrap_around fill_color invert_mask_output : string)
    (image : option tensor3) (mask : option tensor2) : outputs :=
  match image, mask with
  | None, None =>
      let dummy_image := [Np.zeros3 64 64 3] in
      let dummy_mask := [Np.zeros2 64 64] in
      mk_outputs dummy_image dummy_mask offset_x offset_y
        "No Image or Mask Input"
  | _, _ =>
      let is_mask_connected := is_some mask in
      let unified_fill_color_tuple := _parse_color_string fill_color in
      let st := transformed offset_x offset_y wrap_around fill_color
                  image mask in
      let w := current_width st in
      let h := current_height st in
      let img_rgb :=
        option_map (composite_over_fill unified_fill_color_tuple)
          (img_pil st) in
      let mask_out :=
        option_map (invert_for_output invert_mask_output) (mask_pil st) in
      mk_outputs
        (image_tensor w h img_rgb)
        (mask_tensor is_mask_connected w h mask_out)
        offset_x offset_y
        (output_info offset_x offset_y w h wrap_around invert_mask_output)
  end.

(** Feeding a returned [1 x H x W x C] image back in: [squeeze] drops the
    batch axis. *)
Definition squeeze_batch {A} (t : list (list A)) : list A :=
  match t with
  | [x] => x
  | _ => []
  end.



(* ------------------------------------------------------------------ *)
(** ** Sample inputs *)

(** A 2 x 2 white RGB image and a 2 x 2 mask that masks its diagonal. *)
Definition white_2x2 : tensor3 :=
  [[[1; 1; 1]; [1; 1; 1]]; [[1; 1; 1]; [1; 1; 1]]]%Q.
Definition diagonal_mask_2x2 : tensor2 := [[1; 0]; [0; 1]]%Q.

(** A 2 x 2 RGB image with four different pixels. *)
Definition colours_2x2 : tensor3 :=
  [[[0; 0; 0]; [1; 0; 0]]; [[0; 1; 0]; [0; 0; 1]]]%Q.

(** A 2 x 2 RGBA image whose top-left pixel is fully transparent grey. *)
Definition rgba_2x2 : tensor3 :=
  [[[1#2; 1#2; 1#2; 0]; [1; 1; 1; 1]]; [[1; 1; 1; 1]; [1; 1; 1; 1]]]%Q.

(** What the phases maintain: both images are well formed and have the
    current size. *)
Definition sized {P} (w h : nat) (im : PIL.image P) : Prop :=
  well_formed im /\ width im = w /\ height im = h.

Definition locals_ok (st : locals) : Prop :=
  (forall im, img_pil st = Some im ->
     sized (current_width st) (current_height st) im) /\
  (forall mp, mask_pil st = Some mp ->
     sized (current_width st) (current_height st) mp).

(** Bytes, and images whose pixels are bytes. *)
Definition byte (v : Z) : Prop := 0 <= v <= 255.

Definition byte_RGBA (p : RGBA) : Prop :=
  let '(r, g, b, a) := p in byte r /\ byte g /\ byte b /\ byte a.

Definition alpha_of (p : RGBA) : Z := let '(_, _, _, a) := p in a.

(** Every pixel of the image has alpha 255. *)
Definition opaque (im : PIL.image RGBA) : Prop :=
  forall x y, (x < width im)%nat -> (y < height im)%nat ->
    alpha_of (getpixel im x y) = 255.

(** A tensor element between 0.0 and 1.0. *)
Definition unit_interval (q : Q) : Prop := (0 <= q)%Q /\ (q <= 1)%Q.

(** Every pixel of the L image is a byte. *)
Definition byte_image (im : PIL.image L) : Prop :=
  forall x y, byte (getpixel im x y).


(** Lines 206-216 on one byte of the mask. *)
Definition mask_value (is_mask_connected : bool) (v : Z) : Q :=
  if is_mask_connected then Np.one_minus (Np.div255 v) else Np.div255 v.

(** Digits, and the number a digit string denotes in a base. *)
Definition hex_digit (c : ascii) : bool := PyStr.digit_value c <? 16.
Definition dec_digit (c : ascii) : bool := PyStr.digit_value c <? 10.

Definition number (base : Z) (d : PyStr.str) : Z :=
  fold_left (fun acc c => acc * base + PyStr.digit_value c) d 0.

(** A character that no integer literal of base 10 or 16 can hold: neither
    whitespace, sign, underscore, the [x] of a prefix, nor a digit. *)
Definition alien (c : ascii) : bool :=
  negb (PyStr.isspace c)
  && negb (Ascii.eqb c "+"%char) && negb (Ascii.eqb c "-"%char)
  && negb (Ascii.eqb c PyStr.underscore)
  && negb (Ascii.eqb c "x"%char) && negb (Ascii.eqb c "X"%char)
  && (16 <=? PyStr.digit_value c).

Definition comma : ascii := ","%char.

(** The four forms of a colour string the specification names. *)
Definition hex_form (n : nat) (s : PyStr.str) : bool :=
  (List.length s =? n)%nat && forallb hex_digit s.

Definition dec_component (p : PyStr.str) : bool :=
  negb (List.length p =? 0)%nat && forallb dec_digit p.


(** [sep.join(parts)] for a one-character separator. *)
Fixpoint join (sep : ascii) (parts : list PyStr.str) : PyStr.str :=
  match parts with
  | [] => []
  | [p] => p
  | p :: ps => p ++ sep :: join sep ps
  end.





(** Indexing the returned tensors: [MASK[0, y, x]] and [IMAGE[0, y, x, c]]. *)
Definition mask_pixel (out : outputs) (x y : nat) : Q :=
  nth x (nth y (hd [] (MASK out)) []) 0%Q.

Definition image_pixel (out : outputs) (x y c : nat) : Q :=
  nth c (nth x (nth y (hd [] (IMAGE out)) []) []) 0%Q.

(** The byte an element of an input tensor becomes: [mask[y, x]] and
    [image[y, x, c]] after the conversion of lines 93 and 102. *)
Definition mask_byte (mask : tensor2) (x y : nat) : Z :=
  Np.to_uint8 (nth x (nth y mask []) 0%Q).

Definition image_byte (image : tensor3) (x y c : nat) : Z :=
  Np.to_uint8 (nth c (nth x (nth y image []) []) 0%Q).

Definition byte_RGB (p : RGB) : Prop :=
  let '(r, g, b) := p in byte r /\ byte g /\ byte b.



(** The pixel [(x, y)] receives a pixel of a [w x h] image pasted at
    [(ox, oy)]. *)
Definition covered (w h : nat) (ox oy : Z) (x y : nat) : Prop :=
  ox <= Z.of_nat x < ox + Z.of_nat w /\ oy <= Z.of_nat y < oy + Z.of_nat h.

(** The colour bands of a pixel as [np.array] lists them. *)
Definition bands_RGB (p : RGB) : list Z := let '(r, g, b) := p in [r; g; b].

Definition rgb_of (p : RGBA) : RGB := let '(r, g, b, _) := p in (r, g, b).

(* ================================================================== *)
(** * Properties *)

(* ------------------------------------------------------------------ *)
(** ** Images built by [tabulate] *)

Section Tabulate.
Context {P : Type} `{Pixel P}.

Lemma nth_map_seq {A} (f : nat -> A) (n i : nat) (d : A) :
  (i < n)%nat -> nth i (map f (seq 0 n)) d = f i.
Proof.
  intros Hi.
  rewrite (nth_indep _ d (f 0%nat)) by (rewrite length_map, length_seq; exact Hi).
  rewrite map_nth, seq_nth by exact Hi.
  reflexivity.
Qed.

Lemma nth_map_seq_out {A} (f : nat -> A) (n i : nat) (d : A) :
  (n <= i)%nat -> nth i (map f (seq 0 n)) d = d.
Proof.
  intros Hi. apply nth_overflow.
  rewrite length_map, length_seq. exact Hi.
Qed.

Lemma getpixel_tabulate (w h : nat) (f : nat -> nat -> P) (x y : nat) :
  (x < w)%nat -> (y < h)%nat -> getpixel (tabulate w h f) x y = f x y.
Proof.
  intros Hx Hy. unfold getpixel, tabulate. simpl.
  rewrite nth_map_seq by exact Hy.
  apply (nth_map_seq (fun x0 => f x0 y)). exact Hx.
Qed.

(** Outside its size a tabulated image reads as [blank]. *)
Lemma getpixel_tabulate_cases (w h : nat) (f : nat -> nat -> P) (x y : nat) :
  getpixel (tabulate w h f) x y
  = if ((x <? w) && (y <? h))%nat then f x y else blank.
Proof.
  unfold getpixel, tabulate. simpl.
  destruct (Nat.ltb_spec y h) as [Hy | Hy].
  - rewrite nth_map_seq by exact Hy.
    destruct (Nat.ltb_spec x w) as [Hx | Hx]; simpl.
    + apply (nth_map_seq (fun x0 => f x0 y)). exact Hx.
    + apply nth_map_seq_out. exact Hx.
  - rewrite nth_map_seq_out by exact Hy.
    rewrite andb_false_r. destruct x; reflexivity.
Qed.

Lemma tabulate_ext (w h : nat) (f g : nat -> nat -> P) :
  (forall x y, (x < w)%nat -> (y < h)%nat -> f x y = g x y) ->
  tabulate w h f = tabulate w h g.
Proof.
  intros Hfg. unfold tabulate. f_equal.
  apply map_ext_in. intros y Hy. apply in_seq in Hy.
  apply map_ext_in. intros x Hx. apply in_seq in Hx.
  apply Hfg; lia.
Qed.

Lemma well_formed_tabulate (w h : nat) (f : nat -> nat -> P) :
  well_formed (tabulate w h f).
Proof.
  split; simpl.
  - rewrite length_map, length_seq. reflexivity.
  - apply Forall_forall. intros r Hr.
    apply in_map_iff in Hr. destruct Hr as [y [<- _]].
    rewrite length_map, length_seq. reflexivity.
Qed.

(** A well-formed image is the table of its own pixels. *)
Lemma tabulate_getpixel (im : image P) :
  well_formed im -> tabulate (width im) (height im) (getpixel im) = im.
Proof.
  destruct im as [w h rs]. unfold well_formed. simpl.
  intros [Hlen Hrows]. unfold tabulate. f_equal.
  apply (nth_ext _ _ [] []).
  - rewrite length_map, length_seq. symmetry. exact Hlen.
  - intros y Hy. rewrite length_map, length_seq in Hy.
    rewrite nth_map_seq by exact Hy.
    assert (Hr : List.length (nth y rs []) = w).
    { rewrite Forall_forall in Hrows. apply Hrows, nth_In. lia. }
    apply (nth_ext _ _ blank blank).
    + rewrite length_map, length_seq. symmetry. exact Hr.
    + intros x Hx. rewrite length_map, length_seq in Hx.
      rewrite nth_map_seq by exact Hx. reflexivity.
Qed.

End Tabulate.

(* ------------------------------------------------------------------ *)
(** ** The wrap-around offset *)

Lemma offset_start_spec (n a : Z) :
  0 < n -> 0 <= offset_start n a /\ (offset_start n a + a) mod n = 0.
Proof.
  intros Hn. unfold offset_start.
  pose proof (Z.rem_bound_abs a n ltac:(lia)) as Hb.
  pose proof (Z.quot_rem' a n) as Hq.
  assert (Hlt : Z.abs (Z.rem a n) < n) by lia.
  destruct (Z.ltb_spec (n - Z.rem a n) 0) as [Hneg | Hpos]; [lia |].
  split; [lia |].
  replace (n - Z.rem a n + a) with (0 + (1 + a ÷ n) * n) by lia.
  rewrite Z_mod_plus_full. reflexivity.
Qed.

(** Reading at the shifted index and shifting back lands on the start. *)
Lemma offset_index_inverse (n a x : Z) :
  0 < n -> 0 <= x < n ->
  let x1 := Z.rem (x + offset_start n (- a)) n in
  0 <= x1 < n /\ Z.rem (x1 + offset_start n a) n = x.
Proof.
  intros Hn Hx x1.
  destruct (offset_start_spec n a Hn) as [Ha0 Ha].
  destruct (offset_start_spec n (- a) Hn) as [Hb0 Hb].
  assert (Hx1 : x1 = (x + offset_start n (- a)) mod n).
  { unfold x1. apply Z.rem_mod_nonneg; lia. }
  assert (Hr : 0 <= x1 < n) by (rewrite Hx1; apply Z.mod_pos_bound; lia).
  split; [exact Hr |].
  rewrite Z.rem_mod_nonneg by lia.
  rewrite Hx1, Zplus_mod_idemp_l.
  replace (x + offset_start n (- a) + offset_start n a)
    with (x + ((offset_start n (- a) + - a) + (offset_start n a + a))) by lia.
  rewrite <- Zplus_mod_idemp_r.
  rewrite (Zplus_mod (offset_start n (- a) + - a)), Hb, Ha.
  simpl. rewrite Zmod_0_l, Z.add_0_r.
  apply Z.mod_small. exact Hx.
Qed.

Lemma offset_offset_inverse {P} `{Pixel P} (im : image P) (ox oy : Z) :
  well_formed im -> (0 < width im)%nat -> (0 < height im)%nat ->
  offset (offset im ox oy) (- ox) (- oy) = im.
Proof.
  intros Hwf Hw Hh.
  transitivity (tabulate (width im) (height im) (getpixel im));
    [| apply tabulate_getpixel; exact Hwf].
  unfold offset at 1. simpl.
  apply tabulate_ext. intros x y Hx Hy.
  destruct (offset_index_inverse (Z.of_nat (width im)) ox (Z.of_nat x))
    as [Hx1 Hx2]; [lia | lia |].
  destruct (offset_index_inverse (Z.of_nat (height im)) oy (Z.of_nat y))
    as [Hy1 Hy2]; [lia | lia |].
  unfold offset. rewrite getpixel_tabulate by lia.
  rewrite !Z2Nat.id by lia.
  rewrite Hx2, Hy2, !Nat2Z.id. reflexivity.
Qed.

(* ------------------------------------------------------------------ *)
(** ** Sizes through the phases *)

Lemma sized_tabulate {P} (w h : nat) (f : nat -> nat -> P) :
  sized w h (tabulate w h f).
Proof.
  split; [apply well_formed_tabulate | split; reflexivity].
Qed.

Lemma size_eqb_true {P Q} (a : PIL.image P) (b : PIL.image Q) :
  size_eqb (size a) (size b) = true ->
  width b = width a /\ height b = height a.
Proof.
  unfold size_eqb, size. simpl. intros Hs.
  apply andb_true_iff in Hs. destruct Hs as [Hw Hh].
  apply Nat.eqb_eq in Hw. apply Nat.eqb_eq in Hh. lia.
Qed.

Lemma initialize_ok (image : option tensor3) (mask : option tensor2) :
  locals_ok (initialize image mask).
Proof.
  unfold initialize.
  destruct image as [t |], mask as [m |]; simpl.
  - destruct (size_eqb (size (image_to_pil t)) (size (mask_to_pil m))) eqn:Hs;
      simpl; split; simpl; intros im Him; inversion Him; subst.
    + unfold image_to_pil. destruct (_ =? 4)%nat; apply sized_tabulate.
    + destruct (size_eqb_true _ _ Hs) as [Hw Hh].
      split; [apply well_formed_tabulate | split; assumption].
    + unfold image_to_pil. destruct (_ =? 4)%nat; apply sized_tabulate.
    + apply sized_tabulate.
  - assert (Hs : size_eqb (size (image_to_pil t))
                   (size (new_L (width (image_to_pil t))
                                (height (image_to_pil t)) 255)) = true).
    { unfold size_eqb, size. simpl. rewrite !Nat.eqb_refl. reflexivity. }
    rewrite Hs. simpl.
    split; simpl; intros im Him; inversion Him; subst.
    + unfold image_to_pil. destruct (_ =? 4)%nat; apply sized_tabulate.
    + apply sized_tabulate.
  - split; simpl; intros im Him; inversion Him; subst. apply sized_tabulate.
  - split; simpl; intros im Him; inversion Him.
Qed.

Lemma apply_offset_wrap_inverse (ox oy : Z) (fc fc' : list Z)
    (conn conn' : bool) (st : locals) :
  locals_ok st ->
  (0 < current_width st)%nat -> (0 < current_height st)%nat ->
  apply_offset (- ox) (- oy) "On" fc' conn'
    (apply_offset ox oy "On" fc conn st) = st.
Proof.
  intros [Himg Hmask] Hw Hh.
  destruct st as [im mp w h]. simpl in *.
  unfold apply_offset. simpl. f_equal.
  - destruct im as [im |]; simpl; [| reflexivity].
    destruct (Himg im eq_refl) as [Hwf [Hwi Hhi]].
    unfold offset_image. simpl. f_equal.
    apply offset_offset_inverse; [exact Hwf | lia | lia].
  - destruct mp as [mp |]; simpl; [| reflexivity].
    destruct (Hmask mp eq_refl) as [Hwf [Hwi Hhi]].
    unfold offset_mask. simpl. f_equal.
    apply offset_offset_inverse; [exact Hwf | lia | lia].
Qed.

(* ------------------------------------------------------------------ *)
(** ** C1: the toroidal offset *)

(** C1, as stated, fails on the whole operation.  A white 2 x 2 image with a
    connected mask on its diagonal is offset by (1, 0) with wrap On; the
    returned image carries the fill colour where the mask was set.  Running
    the operation again on the result with offset (-1, 0) and wrap On does
    not give the white image back, whether the second run gets no mask, the
    original mask or the returned mask. *)
Lemma C1_operation_not_inverted :
  let run1 := apply_image_transformations 1 0 "On" "0,0,0" "No"
                (Some white_2x2) (Some diagonal_mask_2x2) in
  let again mask := apply_image_transformations (-1) 0 "On" "0,0,0" "No"
                      (Some (squeeze_batch (IMAGE run1))) mask in
  IMAGE (again None) <> [white_2x2] /\
  IMAGE (again (Some diagonal_mask_2x2)) <> [white_2x2] /\
  IMAGE (again (Some (squeeze_batch (MASK run1)))) <> [white_2x2].
Proof.
  vm_compute. repeat split; discriminate.
Qed.

(** Without a mask, and on an image whose values are multiples of 1/255,
    the second run does give the image back. *)
Example wrap_round_trip_image_only :
  let run1 := apply_image_transformations 1 (-1) "On" "0,0,0" "No"
                (Some colours_2x2) None in
  IMAGE run1 <> [colours_2x2] /\
  IMAGE (apply_image_transformations (-1) 1 "On" "0,0,0" "No"
           (Some (squeeze_batch (IMAGE run1))) None) = [colours_2x2].
Proof.
  vm_compute. split; [discriminate | reflexivity].
Qed.

(** C1 (amended): in wrap mode the offset phase is invertible.  For every
    image and mask input of non-zero size and all integer offsets, the
    offset phase with wrap On followed by the offset phase with the negated
    offsets and wrap On gives back the internal 8-bit image and mask
    exactly, whatever fill colours the two runs use. *)
Theorem C1_wrap_offset_phase_invertible
    (image : option tensor3) (mask : option tensor2) (ox oy : Z)
    (fc fc' : list Z) (conn conn' : bool) :
  let st := initialize image mask in
  (0 < current_width st)%nat -> (0 < current_height st)%nat ->
  apply_offset (- ox) (- oy) "On" fc' conn'
    (apply_offset ox oy "On" fc conn st) = st.
Proof.
  intros st Hw Hh.
  apply apply_offset_wrap_inverse; [apply initialize_ok | exact Hw | exact Hh].
Qed.

Lemma C1_wrap_offset_phase_invertible_witness :
  let st := initialize (Some white_2x2) (Some diagonal_mask_2x2) in
  (0 < current_width st)%nat /\ (0 < current_height st)%nat /\
  apply_offset (- 4096) (- (-3)) "On" [0; 0; 0; 255] true
    (apply_offset 4096 (-3) "On" [255; 0; 0; 255] true st) = st.
Proof.
  assert (Hw : (0 < current_width
                     (initialize (Some white_2x2) (Some diagonal_mask_2x2)))%nat)
    by (vm_compute; lia).
  assert (Hh : (0 < current_height
                     (initialize (Some white_2x2) (Some diagonal_mask_2x2)))%nat)
    by (vm_compute; lia).
  split; [exact Hw | split; [exact Hh |]].
  exact (C1_wrap_offset_phase_invertible (Some white_2x2)
           (Some diagonal_mask_2x2) 4096 (-3) [255; 0; 0; 255] [0; 0; 0; 255]
           true true Hw Hh).
Defined.

(* ------------------------------------------------------------------ *)
(** ** Bytes *)

Lemma byte_cases (p : Z -> bool) :
  forallb p (map Z.of_nat (seq 0 256)) = true ->
  forall v, byte v -> p v = true.
Proof.
  intros Hall v [Hlo Hhi].
  rewrite forallb_forall in Hall. apply Hall.
  apply in_map_iff. exists (Z.to_nat v). split; [lia |].
  apply in_seq. lia.
Qed.

Lemma blend8_255 (o i : Z) : byte i -> blend8 255 o i = i.
Proof.
  intros Hi. unfold blend8.
  replace (o * (255 - 255) + i * 255) with (i * 255) by lia.
  apply Z.eqb_eq.
  apply (byte_cases (fun v => div255 (v * 255) =? v)); [| exact Hi].
  vm_compute. reflexivity.
Qed.

Lemma to_uint8_byte (x : Q) : byte (Np.to_uint8 x).
Proof.
  unfold Np.to_uint8, Np.clip, byte.
  destruct (Qle_bool (inject_Z 255 * x) (inject_Z 0)) eqn:H0.
  - rewrite Qfloor_Z. lia.
  - destruct (Qle_bool (inject_Z 255) (inject_Z 255 * x)) eqn:H1.
    + rewrite Qfloor_Z. lia.
    + assert (Hlo : (inject_Z 0 <= inject_Z 255 * x)%Q).
      { apply Qnot_lt_le. intros Hlt.
        apply Qlt_le_weak, Qle_bool_iff in Hlt. congruence. }
      assert (Hhi : (inject_Z 255 * x <= inject_Z 255)%Q).
      { apply Qnot_lt_le. intros Hlt.
        apply Qlt_le_weak, Qle_bool_iff in Hlt. congruence. }
      apply Qfloor_resp_le in Hlo. apply Qfloor_resp_le in Hhi.
      rewrite Qfloor_Z in Hlo, Hhi. lia.
Qed.

Lemma nth_to_uint8_byte (k : nat) (q : list Q) :
  byte (nth k (map Np.to_uint8 q) 0).
Proof.
  destruct (nth_in_or_default k (map Np.to_uint8 q) 0) as [Hin | ->].
  - apply in_map_iff in Hin. destruct Hin as [x [<- _]].
    apply to_uint8_byte.
  - unfold byte. lia.
Qed.

Lemma nth_nth_map3 {A B} (f : A -> B) (t : list (list (list A))) (x y : nat) :
  nth x (nth y (map (map (map f)) t) []) []
  = map f (nth x (nth y t []) []).
Proof.
  change (@nil (list B)) with (map (map f) []) at 1.
  rewrite map_nth.
  change (@nil B) with (map f []) at 1.
  rewrite map_nth. reflexivity.
Qed.

Lemma image_to_pil_bytes (t : tensor3) (x y : nat) :
  byte_RGBA (getpixel (image_to_pil t) x y).
Proof.
  unfold image_to_pil.
  destruct (Np.shape_last t =? 4)%nat.
  - unfold fromarray_RGBA. rewrite getpixel_tabulate_cases.
    destruct (_ && _)%bool.
    + rewrite nth_nth_map3. simpl.
      repeat split; apply nth_to_uint8_byte.
    + vm_compute. intuition discriminate.
  - unfold convert_RGBA. rewrite getpixel_tabulate_cases.
    destruct (_ && _)%bool.
    + unfold fromarray_RGB. rewrite getpixel_tabulate_cases.
      destruct (_ && _)%bool.
      * rewrite nth_nth_map3. simpl.
        repeat split; try apply nth_to_uint8_byte; unfold byte; lia.
      * vm_compute. intuition discriminate.
    + vm_compute. intuition discriminate.
Qed.

(** A three-channel input becomes an opaque image. *)
Lemma rgb_input_opaque (t : tensor3) :
  Np.shape_last t <> 4%nat -> opaque (image_to_pil t).
Proof.
  intros H3 x y Hx Hy. unfold image_to_pil in *.
  apply Nat.eqb_neq in H3. rewrite H3 in *.
  unfold convert_RGBA in *. simpl in Hx, Hy.
  rewrite getpixel_tabulate by assumption.
  destruct (getpixel _ x y) as [[r g] b]. reflexivity.
Qed.

(* ------------------------------------------------------------------ *)
(** ** Clip mode at offset (0, 0) *)

Lemma paste_source_origin (w h x y : nat) :
  (x < w)%nat -> (y < h)%nat -> paste_source w h 0 0 x y = Some (x, y).
Proof.
  intros Hx Hy. unfold paste_source.
  rewrite !Z.sub_0_r, !Nat2Z.id.
  replace (0 <=? Z.of_nat x) with true by (symmetry; apply Z.leb_le; lia).
  replace (0 <=? Z.of_nat y) with true by (symmetry; apply Z.leb_le; lia).
  replace (Z.of_nat x <? Z.of_nat w) with true by (symmetry; apply Z.ltb_lt; lia).
  replace (Z.of_nat y <? Z.of_nat h) with true by (symmetry; apply Z.ltb_lt; lia).
  reflexivity.
Qed.

Lemma paste_origin {P} `{Pixel P} (dst src : PIL.image P) :
  well_formed src -> width dst = width src -> height dst = height src ->
  paste dst src 0 0 = src.
Proof.
  intros Hwf Hw Hh. unfold paste. rewrite Hw, Hh.
  transitivity (tabulate (width src) (height src) (getpixel src));
    [| apply tabulate_getpixel; exact Hwf].
  apply tabulate_ext. intros x y Hx Hy.
  rewrite paste_source_origin by assumption. reflexivity.
Qed.

Lemma paste_mask_origin_opaque (dst src : PIL.image RGBA) :
  well_formed src -> width dst = width src -> height dst = height src ->
  (forall x y, byte_RGBA (getpixel src x y)) -> opaque src ->
  paste_mask dst src 0 0 (alpha_band src) = src.
Proof.
  intros Hwf Hw Hh Hbytes Hop. unfold paste_mask. rewrite Hw, Hh.
  transitivity (tabulate (width src) (height src) (getpixel src));
    [| apply tabulate_getpixel; exact Hwf].
  apply tabulate_ext. intros x y Hx Hy.
  rewrite paste_source_origin by assumption.
  unfold alpha_band. rewrite getpixel_tabulate by assumption.
  specialize (Hop x y Hx Hy). specialize (Hbytes x y).
  destruct (getpixel src x y) as [[[r g] b] a].
  destruct (getpixel dst x y) as [[[r' g'] b'] a'].
  simpl in Hop. subst a. destruct Hbytes as [Hr [Hg [Hb Ha]]].
  simpl. rewrite !blend8_255 by assumption. reflexivity.
Qed.

Lemma offset_mask_clip_origin (conn : bool) (w h : nat) (mp : PIL.image L) :
  sized w h mp -> offset_mask 0 0 "Off" conn w h mp = mp.
Proof.
  intros [Hwf [Hw Hh]]. unfold offset_mask. simpl.
  apply paste_origin; [exact Hwf | simpl; lia | simpl; lia].
Qed.

Lemma offset_image_clip_origin (fc : list Z) (w h : nat)
    (im : PIL.image RGBA) :
  sized w h im -> (forall x y, byte_RGBA (getpixel im x y)) -> opaque im ->
  offset_image 0 0 "Off" fc w h im = im.
Proof.
  intros [Hwf [Hw Hh]] Hbytes Hop. unfold offset_image. simpl.
  apply paste_mask_origin_opaque;
    [exact Hwf | simpl; lia | simpl; lia | exact Hbytes | exact Hop].
Qed.

Lemma map_const_seq {A} (v : A) (n s : nat) :
  map (fun _ => v) (seq s n) = repeat v n.
Proof.
  revert s. induction n as [| n IH]; intros s; simpl; [reflexivity |].
  rewrite IH. reflexivity.
Qed.

Lemma rows_tabulate_const {P} (w h : nat) (v : P) :
  rows (tabulate w h (fun _ _ => v)) = repeat (repeat v w) h.
Proof.
  unfold tabulate. simpl.
  rewrite (map_ext _ (fun _ => repeat v w)) by (intros; apply map_const_seq).
  apply map_const_seq.
Qed.

Lemma map_repeat {A B} (f : A -> B) (v : A) (n : nat) :
  map f (repeat v n) = repeat (f v) n.
Proof.
  induction n as [| n IH]; simpl; [reflexivity | rewrite IH; reflexivity].
Qed.

Lemma shape1_map {A B} (f : list A -> list B) (t : list (list A)) :
  (forall r, List.length (f r) = List.length r) ->
  Np.shape1 (map f t) = Np.shape1 t.
Proof.
  intros Hf. destruct t as [| r t]; simpl; [reflexivity | apply Hf].
Qed.

Lemma image_to_pil_size (t : tensor3) :
  width (image_to_pil t) = Np.shape1 t /\
  height (image_to_pil t) = Np.shape0 t.
Proof.
  unfold image_to_pil.
  destruct (Np.shape_last t =? 4)%nat; simpl; unfold Np.shape0;
    rewrite shape1_map, length_map by (intros; apply length_map);
    split; reflexivity.
Qed.

(** With an image only, the synthesized mask is all 255 and has the size
    of the image. *)
Lemma initialize_image_only (t : tensor3) :
  initialize (Some t) None
  = mk_locals (Some (image_to_pil t))
      (Some (new_L (width (image_to_pil t)) (height (image_to_pil t)) 255))
      (width (image_to_pil t)) (height (image_to_pil t)).
Proof.
  unfold initialize. simpl.
  assert (Hs : size_eqb (size (image_to_pil t))
                 (size (new_L (width (image_to_pil t))
                              (height (image_to_pil t)) 255)) = true).
  { unfold size_eqb, size. simpl. rewrite !Nat.eqb_refl. reflexivity. }
  rewrite Hs. reflexivity.
Qed.

(* ------------------------------------------------------------------ *)
(** ** C2: clip mode with offset (0, 0) *)

(** C2, as stated, fails.  (1) The clip-mode paste uses the image's own
    alpha band as the paste mask, so a fully transparent pixel of an RGBA
    input is replaced by the fill colour: the pre-composite image differs
    from the input image.  (2) With an image only, wrap Off and offset
    (0, 0), the output mask is all 0.0 when the output inversion is
    switched on. *)
Lemma C2_clip_origin_not_identity :
  (let st := initialize (Some rgba_2x2) None in
   img_pil (apply_offset 0 0 "Off" (_parse_color_string "0,0,0") false st)
   <> img_pil st) /\
  MASK (apply_image_transformations 0 0 "Off" "0,0,0" "Yes"
          (Some white_2x2) None) = [[[0; 0]; [0; 0]]]%Q.
Proof.
  split; [vm_compute; discriminate | vm_compute; reflexivity].
Qed.

(** C2 (amended): with wrap_around "Off" and offset (0, 0) the offset phase
    leaves the mask (supplied or synthesized) unchanged for every input, and
    leaves the image unchanged for every input image that is opaque (three
    channels, or alpha 255 at every pixel); with an image only and the
    output inversion off, every output mask pixel is 1.0. *)
Theorem C2_clip_origin_identity
    (image : tensor3) (mask : option tensor2) (fill_color : string) :
  let st := initialize (Some image) mask in
  let st' := apply_offset 0 0 "Off" (_parse_color_string fill_color)
               (is_some mask) st in
  mask_pil st' = mask_pil st /\
  (Np.shape_last image <> 4%nat \/ opaque (image_to_pil image) ->
   img_pil st' = img_pil st) /\
  MASK (apply_image_transformations 0 0 "Off" fill_color "No"
          (Some image) None)
  = [repeat (repeat 1%Q (Np.shape1 image)) (Np.shape0 image)].
Proof.
  intros st st'.
  pose proof (initialize_ok (Some image) mask) as [Himg Hmask].
  fold st in Himg, Hmask.
  split; [| split].
  - unfold st', apply_offset. simpl.
    destruct (mask_pil st) as [mp |] eqn:Hmp; simpl; [| reflexivity].
    f_equal. apply offset_mask_clip_origin. apply Hmask. reflexivity.
  - intros Hop.
    assert (Hop' : opaque (image_to_pil image)).
    { destruct Hop as [H3 | Hop]; [apply rgb_input_opaque; exact H3 | exact Hop]. }
    assert (Him : img_pil st = Some (image_to_pil image)).
    { unfold st, initialize. simpl.
      destruct mask; simpl;
        repeat match goal with
               | |- context [if ?b then _ else _] => destruct b
               end; reflexivity. }
    unfold st', apply_offset. simpl. rewrite Him. simpl. f_equal.
    apply offset_image_clip_origin;
      [apply Himg; exact Him | apply image_to_pil_bytes | exact Hop'].
  - unfold apply_image_transformations, transformed.
    rewrite initialize_image_only.
    unfold apply_offset, apply_mask_to_alpha.
    cbn [img_pil mask_pil current_width current_height option_map is_some].
    rewrite offset_mask_clip_origin by apply sized_tabulate.
    unfold mask_tensor, invert_for_output, toarray_L, new_L.
    cbn [String.eqb Ascii.eqb Bool.eqb].
    rewrite rows_tabulate_const, !map_repeat.
    destruct (image_to_pil_size image) as [-> ->].
    reflexivity.
Qed.

Lemma C2_clip_origin_identity_witness :
  let st := initialize (Some white_2x2) (Some diagonal_mask_2x2) in
  let st' := apply_offset 0 0 "Off" (_parse_color_string "ff0000") true st in
  Np.shape_last white_2x2 <> 4%nat /\ img_pil st' = img_pil st.
Proof.
  assert (H3 : Np.shape_last white_2x2 <> 4%nat) by (vm_compute; lia).
  split; [exact H3 |].
  exact (proj1 (proj2 (C2_clip_origin_identity white_2x2
                         (Some diagonal_mask_2x2) "ff0000"))
           (or_introl H3)).
Defined.

(* ------------------------------------------------------------------ *)
(** ** C7: neither image nor mask *)

(** C7: with both image and mask absent the operation returns, for every
    value of the other inputs, an all-zero 1 x 64 x 64 x 3 image, an all-zero
    1 x 64 x 64 mask, the two offsets as given and the info string
    "No Image or Mask Input". *)
Theorem C7_no_input_dummy_output
    (offset_x offset_y : Z) (wrap_around fill_color invert_mask_output : string) :
  apply_image_transformations offset_x offset_y wrap_around fill_color
    invert_mask_output None None
  = mk_outputs [repeat (repeat (repeat 0%Q 3) 64) 64]
      [repeat (repeat 0%Q 64) 64] offset_x offset_y "No Image or Mask Input".
Proof.
  reflexivity.
Qed.

(* ------------------------------------------------------------------ *)
(** ** C8: the canvas of the mask in clip mode *)

(** C8: in clip mode the mask is pasted on a fresh canvas of the current
    size whose every pixel is 255 when a mask was supplied and 0 when the
    mask was synthesized; a pixel the pasted mask does not cover keeps that
    value. *)
Theorem C8_clip_mask_canvas
    (image : option tensor3) (mask : option tensor2) (offset_x offset_y : Z)
    (fc : list Z) :
  let st := initialize image mask in
  let w := current_width st in
  let h := current_height st in
  let canvas := temp_mask_img (is_some mask) w h in
  rows canvas = repeat (repeat (if is_some mask then 255 else 0) w) h /\
  width canvas = w /\ height canvas = h /\
  mask_pil (apply_offset offset_x offset_y "Off" fc (is_some mask) st)
  = option_map (fun mp => paste canvas mp offset_x offset_y) (mask_pil st) /\
  forall mp x y,
    (x < w)%nat -> (y < h)%nat ->
    paste_source (width mp) (height mp) offset_x offset_y x y = None ->
    getpixel (paste canvas mp offset_x offset_y) x y
    = if is_some mask then 255 else 0.
Proof.
  intros st w h canvas.
  split; [| split; [reflexivity | split; [reflexivity | split; [reflexivity |]]]].
  - unfold canvas, temp_mask_img, new_L. rewrite rows_tabulate_const.
    destruct (is_some mask); reflexivity.
  - intros mp x y Hx Hy Hsrc. unfold paste.
    change (width canvas) with w. change (height canvas) with h.
    rewrite getpixel_tabulate by assumption. rewrite Hsrc.
    unfold canvas, temp_mask_img, new_L.
    rewrite getpixel_tabulate by assumption.
    destruct (is_some mask); reflexivity.
Qed.

Lemma C8_clip_mask_canvas_witness :
  let st := initialize None (Some diagonal_mask_2x2) in
  let canvas := temp_mask_img true (current_width st) (current_height st) in
  paste_source 2 2 1 0 0 1 = None /\
  getpixel (paste canvas (mask_to_pil diagonal_mask_2x2) 1 0) 0 1 = 255.
Proof.
  assert (Hsrc : paste_source (width (mask_to_pil diagonal_mask_2x2))
                   (height (mask_to_pil diagonal_mask_2x2)) 1 0 0 1 = None)
    by reflexivity.
  split; [exact Hsrc |].
  refine (proj2 (proj2 (proj2 (proj2
            (C8_clip_mask_canvas None (Some diagonal_mask_2x2) 1 0 []))))
            (mask_to_pil diagonal_mask_2x2) 0%nat 1%nat _ _ Hsrc);
    vm_compute; lia.
Defined.

(* ------------------------------------------------------------------ *)
(** ** C9: a mask without an image *)

Lemma mask_to_pil_size (m : tensor2) :
  width (mask_to_pil m) = Np.shape1 m /\ height (mask_to_pil m) = Np.shape0 m.
Proof.
  unfold mask_to_pil. simpl. unfold Np.shape0.
  rewrite shape1_map, length_map by (intros; apply length_map).
  split; reflexivity.
Qed.


(* ------------------------------------------------------------------ *)
(** ** The state after the offset and alpha phases *)

Lemma apply_offset_ok (ox oy : Z) (wrap : string) (fc : list Z) (conn : bool)
    (st : locals) :
  locals_ok st -> locals_ok (apply_offset ox oy wrap fc conn st).
Proof.
  intros [Himg Hmask]. unfold apply_offset. split; simpl.
  - intros im Him. destruct (img_pil st) as [im0 |]; [| discriminate].
    inversion Him; subst. destruct (Himg im0 eq_refl) as [_ [Hw Hh]].
    unfold offset_image. destruct (String.eqb wrap "On").
    + unfold offset. rewrite Hw, Hh. apply sized_tabulate.
    + apply sized_tabulate.
  - intros mp Hmp. destruct (mask_pil st) as [mp0 |]; [| discriminate].
    inversion Hmp; subst. destruct (Hmask mp0 eq_refl) as [_ [Hw Hh]].
    unfold offset_mask. destruct (String.eqb wrap "On").
    + unfold offset. rewrite Hw, Hh. apply sized_tabulate.
    + apply sized_tabulate.
Qed.

Lemma apply_mask_to_alpha_mask (conn : bool) (st : locals) :
  mask_pil (apply_mask_to_alpha conn st) = mask_pil st /\
  current_width (apply_mask_to_alpha conn st) = current_width st /\
  current_height (apply_mask_to_alpha conn st) = current_height st.
Proof.
  unfold apply_mask_to_alpha.
  destruct (img_pil st), (mask_pil st) eqn:Hm, conn; simpl; auto.
Qed.

Lemma apply_mask_to_alpha_ok (conn : bool) (st : locals) :
  locals_ok st -> locals_ok (apply_mask_to_alpha conn st).
Proof.
  intros Hok. unfold apply_mask_to_alpha.
  destruct (img_pil st) as [im |] eqn:Him; [| exact Hok].
  destruct (mask_pil st) as [mp |] eqn:Hmp; [| exact Hok].
  destruct conn; [| exact Hok].
  destruct Hok as [Himg Hmask].
  destruct (Himg im Him) as [_ [Hw Hh]].
  split; simpl.
  - intros im' Hi. inversion Hi; subst. unfold putalpha.
    rewrite Hw, Hh. apply sized_tabulate.
  - intros mp' Hm. inversion Hm; subst. apply Hmask. exact Hmp.
Qed.

Lemma transformed_ok (ox oy : Z) (wrap fill : string)
    (image : option tensor3) (mask : option tensor2) :
  locals_ok (transformed ox oy wrap fill image mask).
Proof.
  unfold transformed.
  apply apply_mask_to_alpha_ok, apply_offset_ok, initialize_ok.
Qed.

Lemma initialize_mask_some (image : option tensor3) (mask : option tensor2) :
  is_some image || is_some mask = true ->
  exists mp, mask_pil (initialize image mask) = Some mp.
Proof.
  intros Hin. unfold initialize.
  destruct image as [t |], mask as [m |]; simpl in *; try discriminate;
    repeat match goal with
           | |- context [if ?b then _ else _] => destruct b
           end; eexists; reflexivity.
Qed.

Lemma transformed_mask (ox oy : Z) (wrap fill : string)
    (image : option tensor3) (mask : option tensor2) :
  let st0 := initialize image mask in
  mask_pil (transformed ox oy wrap fill image mask)
  = option_map
      (offset_mask ox oy wrap (is_some mask) (current_width st0)
         (current_height st0)) (mask_pil st0).
Proof.
  unfold transformed.
  destruct (apply_mask_to_alpha_mask (is_some mask)
              (apply_offset ox oy wrap (_parse_color_string fill)
                 (is_some mask) (initialize image mask))) as [-> _].
  reflexivity.
Qed.

Lemma transformed_mask_some (ox oy : Z) (wrap fill : string)
    (image : option tensor3) (mask : option tensor2) :
  is_some image || is_some mask = true ->
  exists mp, mask_pil (transformed ox oy wrap fill image mask) = Some mp.
Proof.
  intros Hin. rewrite transformed_mask.
  destruct (initialize_mask_some image mask Hin) as [mp ->].
  eexists. reflexivity.
Qed.

(** What the function returns once an image or a mask is there. *)
Lemma apply_image_transformations_some (ox oy : Z) (wrap fill inv : string)
    (image : option tensor3) (mask : option tensor2) :
  is_some image || is_some mask = true ->
  let st := transformed ox oy wrap fill image mask in
  apply_image_transformations ox oy wrap fill inv image mask
  = mk_outputs
      (image_tensor (current_width st) (current_height st)
         (option_map (composite_over_fill (_parse_color_string fill))
            (img_pil st)))
      (mask_tensor (is_some mask) (current_width st) (current_height st)
         (option_map (invert_for_output inv) (mask_pil st)))
      ox oy
      (output_info ox oy (current_width st) (current_height st) wrap inv).
Proof.
  intros Hin st. unfold apply_image_transformations.
  destruct image, mask; try reflexivity. discriminate.
Qed.

(* ------------------------------------------------------------------ *)
(** ** Mask pixels are bytes *)

Lemma byte_image_tabulate (w h : nat) (f : nat -> nat -> Z) :
  (forall x y, byte (f x y)) -> byte_image (tabulate w h f).
Proof.
  intros Hf x y. rewrite getpixel_tabulate_cases.
  destruct (_ && _)%bool; [apply Hf | unfold byte, blank, Pixel_L; lia].
Qed.

Lemma clip8_byte (v : Z) : byte (clip8 v).
Proof.
  unfold clip8, byte.
  destruct (Z.leb_spec v 0); [lia |].
  destruct (Z.ltb_spec v 256); lia.
Qed.

Lemma mask_to_pil_bytes (m : tensor2) : byte_image (mask_to_pil m).
Proof.
  apply byte_image_tabulate. intros x y.
  change (@nil Z) with (map Np.to_uint8 []).
  rewrite map_nth. apply nth_to_uint8_byte.
Qed.

Lemma initialize_mask_bytes (image : option tensor3) (mask : option tensor2)
    (mp : PIL.image L) :
  mask_pil (initialize image mask) = Some mp -> byte_image mp.
Proof.
  unfold initialize.
  destruct image as [t |], mask as [m |]; simpl;
    repeat match goal with
           | |- context [if ?b then _ else _] => destruct b
           end; intros Hmp; inversion Hmp; subst;
    try apply mask_to_pil_bytes.
  - apply byte_image_tabulate. intros x y. apply mask_to_pil_bytes.
  - apply byte_image_tabulate. intros x y. apply byte_image_tabulate.
    intros x' y'. apply clip8_byte.
  - apply byte_image_tabulate. intros x y. apply clip8_byte.
Qed.

Lemma offset_mask_bytes (ox oy : Z) (wrap : string) (conn : bool)
    (w h : nat) (mp : PIL.image L) :
  byte_image mp -> byte_image (offset_mask ox oy wrap conn w h mp).
Proof.
  intros Hmp. unfold offset_mask. destruct (String.eqb wrap "On").
  - apply byte_image_tabulate. intros x y. apply Hmp.
  - apply byte_image_tabulate. intros x y.
    destruct (paste_source _ _ _ _ _ _) as [[sx sy] |]; [apply Hmp |].
    apply byte_image_tabulate. intros x' y'. apply clip8_byte.
Qed.

Lemma transformed_mask_bytes (ox oy : Z) (wrap fill : string)
    (image : option tensor3) (mask : option tensor2) (mp : PIL.image L) :
  mask_pil (transformed ox oy wrap fill image mask) = Some mp ->
  byte_image mp.
Proof.
  rewrite transformed_mask.
  destruct (mask_pil (initialize image mask)) as [mp0 |] eqn:Hmp0;
    simpl; [| discriminate].
  intros Hmp. inversion Hmp; subst.
  apply offset_mask_bytes. eapply initialize_mask_bytes. exact Hmp0.
Qed.

Lemma invert_for_output_bytes (inv : string) (mp : PIL.image L) :
  byte_image mp -> byte_image (invert_for_output inv mp).
Proof.
  intros Hmp. unfold invert_for_output.
  destruct (String.eqb inv "Yes"); [| exact Hmp].
  apply byte_image_tabulate. intros x y.
  specialize (Hmp x y). unfold byte in *. lia.
Qed.

Lemma invert_for_output_sized (inv : string) (w h : nat) (mp : PIL.image L) :
  sized w h mp -> sized w h (invert_for_output inv mp).
Proof.
  intros Hs. unfold invert_for_output.
  destruct (String.eqb inv "Yes"); [| exact Hs].
  destruct Hs as [_ [Hw Hh]]. unfold invert. rewrite Hw, Hh.
  apply sized_tabulate.
Qed.

Lemma rows_Forall {P} `{Pixel P} (R : P -> Prop) (im : PIL.image P) :
  well_formed im -> (forall x y, R (getpixel im x y)) ->
  Forall (Forall R) (rows im).
Proof.
  intros Hwf HR. rewrite <- (tabulate_getpixel im Hwf). simpl.
  apply Forall_forall. intros r Hr.
  apply in_map_iff in Hr. destruct Hr as [y [<- _]].
  apply Forall_forall. intros p Hp.
  apply in_map_iff in Hp. destruct Hp as [x [<- _]].
  apply HR.
Qed.

Lemma div255_unit (v : Z) : byte v -> unit_interval (Np.div255 v).
Proof.
  intros Hv.
  assert (Hb : (Qle_bool 0 (Np.div255 v) && Qle_bool (Np.div255 v) 1)%bool
               = true).
  { apply (byte_cases
             (fun v => (Qle_bool 0 (Np.div255 v)
                        && Qle_bool (Np.div255 v) 1)%bool)); [| exact Hv].
    vm_compute. reflexivity. }
  apply andb_true_iff in Hb. destruct Hb as [H0 H1].
  split; apply Qle_bool_iff; assumption.
Qed.

Lemma one_minus_div255_unit (v : Z) :
  byte v -> unit_interval (Np.one_minus (Np.div255 v)).
Proof.
  intros Hv.
  assert (Hb : (Qle_bool 0 (Np.one_minus (Np.div255 v))
                && Qle_bool (Np.one_minus (Np.div255 v)) 1)%bool = true).
  { apply (byte_cases
             (fun v => (Qle_bool 0 (Np.one_minus (Np.div255 v))
                        && Qle_bool (Np.one_minus (Np.div255 v)) 1)%bool));
      [| exact Hv].
    vm_compute. reflexivity. }
  apply andb_true_iff in Hb. destruct Hb as [H0 H1].
  split; apply Qle_bool_iff; assumption.
Qed.

Lemma Forall_rows_map {A B} (f : A -> B) (R : B -> Prop)
    (l : list (list A)) :
  Forall (Forall (fun a => R (f a))) l -> Forall (Forall R) (map (map f) l).
Proof.
  intros Hl. apply Forall_map.
  eapply Forall_impl; [| exact Hl].
  intros r Hr. apply Forall_map. exact Hr.
Qed.

Lemma Forall_rows_impl {A} (R S : A -> Prop) (l : list (list A)) :
  (forall a, R a -> S a) -> Forall (Forall R) l -> Forall (Forall S) l.
Proof.
  intros HRS Hl. eapply Forall_impl; [| exact Hl].
  intros r Hr. eapply Forall_impl; [| exact Hr]. exact HRS.
Qed.

(* ------------------------------------------------------------------ *)
(** ** C10: the range of the output mask *)

(** C10: every pixel of the returned mask lies between 0.0 and 1.0, for
    every image and mask tensor, whatever values the mask tensor holds (the
    conversion to bytes clips them), and also when neither is supplied. *)
Theorem C10_output_mask_in_unit_interval
    (offset_x offset_y : Z) (wrap_around fill_color invert_mask_output : string)
    (image : option tensor3) (mask : option tensor2) :
  Forall (Forall (Forall unit_interval))
    (MASK (apply_image_transformations offset_x offset_y wrap_around
             fill_color invert_mask_output image mask)).
Proof.
  destruct (is_some image || is_some mask)%bool eqn:Hin.
  - rewrite apply_image_transformations_some by exact Hin.
    cbn [MASK].
    destruct (transformed_mask_some offset_x offset_y wrap_around fill_color
                image mask Hin) as [mp Hmp].
    rewrite Hmp. cbn [option_map mask_tensor].
    pose proof (transformed_mask_bytes _ _ _ _ _ _ _ Hmp) as Hbytes.
    destruct (transformed_ok offset_x offset_y wrap_around fill_color
                image mask) as [_ Hmask].
    pose proof (Hmask mp Hmp) as Hsized.
    apply (invert_for_output_sized invert_mask_output) in Hsized.
    apply (invert_for_output_bytes invert_mask_output) in Hbytes.
    destruct Hsized as [Hwf _]. unfold toarray_L.
    pose proof (rows_Forall byte _ Hwf Hbytes) as Hall.
    destruct (is_some mask); constructor; try constructor.
    + apply Forall_rows_map, Forall_rows_map.
      revert Hall. apply Forall_rows_impl.
      intros v Hv. apply one_minus_div255_unit. exact Hv.
    + apply Forall_rows_map.
      revert Hall. apply Forall_rows_impl.
      intros v Hv. apply div255_unit. exact Hv.
  - destruct image, mask; try discriminate.
    unfold apply_image_transformations. cbn [MASK]. unfold Np.zeros2.
    constructor; [| constructor].
    apply Forall_forall. intros r Hr. apply repeat_spec in Hr. subst r.
    apply Forall_forall. intros q Hq. apply repeat_spec in Hq. subst q.
    split; discriminate.
Qed.

(* ------------------------------------------------------------------ *)
(** ** The output mask, pixel by pixel *)






Lemma rows_map_tabulate {A B} (k : A -> B) (w h : nat) (f : nat -> nat -> A) :
  map (map k) (rows (tabulate w h f))
  = rows (tabulate w h (fun x y => k (f x y))).
Proof.
  unfold tabulate. simpl. rewrite map_map.
  apply map_ext. intros y. rewrite map_map. reflexivity.
Qed.

Lemma rows_invert (mp : PIL.image L) :
  well_formed mp ->
  rows (invert mp) = map (map (fun v => 255 - v)) (rows mp).
Proof.
  intros Hwf. rewrite <- (tabulate_getpixel mp Hwf) at 2.
  rewrite rows_map_tabulate. reflexivity.
Qed.

Lemma map_map_rows {A B C} (f : A -> B) (g : B -> C) (l : list (list A)) :
  map (map g) (map (map f) l) = map (map (fun a => g (f a))) l.
Proof.
  rewrite map_map. apply map_ext. intros r. apply map_map.
Qed.

(** The mask tensor as a function of the offset mask and the toggle. *)
Lemma mask_tensor_rows (conn : bool) (inv : string) (w h : nat)
    (mp : PIL.image L) :
  well_formed mp ->
  mask_tensor conn w h (Some (invert_for_output inv mp))
  = [map (map (fun v =>
        mask_value conn (if String.eqb inv "Yes" then 255 - v else v)))
       (rows mp)].
Proof.
  intros Hwf. unfold mask_tensor, invert_for_output, toarray_L, mask_value.
  destruct (String.eqb inv "Yes").
  - rewrite rows_invert by exact Hwf.
    destruct conn; rewrite !map_map_rows; reflexivity.
  - destruct conn; rewrite ?map_map_rows; reflexivity.
Qed.


(** With an image and a connected mask, the alpha phase writes the inverse
    of the offset mask. *)
Lemma transformed_alpha (ox oy : Z) (wrap fill : string)
    (image : tensor3) (mask : tensor2) :
  let st := transformed ox oy wrap fill (Some image) (Some mask) in
  exists im mp,
    img_pil st = Some im /\ mask_pil st = Some mp /\
    forall x y, (x < current_width st)%nat -> (y < current_height st)%nat ->
      alpha_of (getpixel im x y) = 255 - getpixel mp x y.
Proof.
  intros st.
  pose (st1 := apply_offset ox oy wrap (_parse_color_string fill) true
                 (initialize (Some image) (Some mask))).
  assert (Hok : locals_ok st1) by apply apply_offset_ok, initialize_ok.
  assert (Hst : st = apply_mask_to_alpha true st1) by reflexivity.
  assert (Him : exists im0, img_pil st1 = Some im0).
  { unfold st1, apply_offset, initialize. simpl.
    repeat match goal with
           | |- context [if ?b then _ else _] => destruct b
           end; eexists; reflexivity. }
  assert (Hmp : exists mp, mask_pil st1 = Some mp).
  { unfold st1, apply_offset, initialize. simpl.
    repeat match goal with
           | |- context [if ?b then _ else _] => destruct b
           end; eexists; reflexivity. }
  destruct Him as [im0 Him], Hmp as [mp Hmp].
  destruct Hok as [Himg Hmask].
  destruct (Himg im0 Him) as [_ [Hwi Hhi]].
  destruct (Hmask mp Hmp) as [_ [Hwm Hhm]].
  destruct (apply_mask_to_alpha_mask true st1) as [_ [HW HH]].
  exists (putalpha im0 (invert mp)), mp.
  rewrite Hst, HW, HH. unfold apply_mask_to_alpha. rewrite Him, Hmp.
  split; [reflexivity | split; [reflexivity |]].
  intros x y Hx Hy. unfold putalpha.
  rewrite getpixel_tabulate by lia.
  destruct (getpixel im0 x y) as [[[r g] b] a]. simpl.
  unfold invert. rewrite getpixel_tabulate by lia. reflexivity.
Qed.

(* ------------------------------------------------------------------ *)
(** ** C3: how the output mask is derived *)



(* ------------------------------------------------------------------ *)
(** ** C4: the output inversion toggle *)



(* ------------------------------------------------------------------ *)
(** ** Python's [int] on digit strings and on foreign characters *)

Module PyStrFacts.
Import PyStr.

Ltac ascii_cases c :=
  destruct c as [[] [] [] [] [] [] [] []]; vm_compute; intuition congruence.

Lemma hex_digit_char (c : ascii) :
  hex_digit c = true ->
  isspace c = false /\ Ascii.eqb c "+"%char = false /\
  Ascii.eqb c "-"%char = false /\ Ascii.eqb c underscore = false /\
  Ascii.eqb c "x"%char = false /\ Ascii.eqb c "X"%char = false /\
  Ascii.eqb c comma = false /\
  0 <= digit_value c < 16.
Proof.
  intros Hc.
  assert (Hv : 0 <= digit_value c < 16).
  { unfold hex_digit in Hc. apply Z.ltb_lt in Hc.
    split; [| exact Hc]. clear Hc. ascii_cases c. }
  repeat split; try apply Hv; revert Hc; clear; ascii_cases c.
Qed.

Lemma dec_digit_hex (c : ascii) : dec_digit c = true -> hex_digit c = true.
Proof.
  unfold dec_digit, hex_digit. intros Hc.
  apply Z.ltb_lt in Hc. apply Z.ltb_lt. lia.
Qed.

Lemma alien_char (c : ascii) :
  alien c = true ->
  isspace c = false /\ Ascii.eqb c "+"%char = false /\
  Ascii.eqb c "-"%char = false /\ Ascii.eqb c underscore = false /\
  Ascii.eqb c "x"%char = false /\ Ascii.eqb c "X"%char = false /\
  Ascii.eqb c "0"%char = false /\
  16 <= digit_value c.
Proof.
  unfold alien. intros Hc.
  repeat (apply andb_true_iff in Hc; destruct Hc as [Hc ?]).
  repeat match goal with
         | H : negb _ = true |- _ => apply negb_true_iff in H
         end.
  assert (Hv : 16 <= digit_value c) by (apply Z.leb_le; assumption).
  repeat split; try assumption.
  destruct (Ascii.eqb_spec c "0"%char) as [-> |]; [| reflexivity].
  vm_compute in Hv. contradiction Hv. reflexivity.
Qed.

Lemma comma_alien : alien comma = true.
Proof. reflexivity. Qed.

(** *** Stripping keeps what is not whitespace *)

Lemma lstrip_head (c : ascii) (s : str) :
  isspace c = false -> lstrip (c :: s) = c :: s.
Proof. intros Hc. simpl. rewrite Hc. reflexivity. Qed.

Lemma in_lstrip (c : ascii) (s : str) :
  isspace c = false -> In c s -> In c (lstrip s).
Proof.
  intros Hc. induction s as [| a s IH]; simpl; [auto |].
  intros [-> | Hin].
  - rewrite Hc. left. reflexivity.
  - destruct (isspace a); [apply IH; exact Hin | right; exact Hin].
Qed.


Lemma strip_id (s : str) (a z : ascii) (m r : str) :
  s = a :: m -> s = r ++ [z] ->
  isspace a = false -> isspace z = false -> strip s = s.
Proof.
  intros Ha Hz Hsa Hsz. unfold strip, rstrip.
  rewrite Ha, lstrip_head by exact Hsa. rewrite <- Ha, Hz.
  rewrite rev_app_distr. simpl. rewrite Hsz. simpl.
  rewrite rev_involutive. reflexivity.
Qed.

(** A non-empty string whose first and last characters are not
    whitespace is left alone by [strip]. *)
Lemma strip_nonspace_ends (s : str) :
  s <> [] ->
  isspace (hd " "%char s) = false -> isspace (last s " "%char) = false ->
  strip s = s.
Proof.
  intros Hne Hhd Hlast.
  destruct s as [| a m]; [contradiction |].
  apply (strip_id (a :: m) a (last (a :: m) " "%char) m
           (removelast (a :: m))); try assumption; try reflexivity.
  apply app_removelast_last. exact Hne.
Qed.

(** *** Digit strings *)

Lemma digits_all (base : Z) (d : str) :
  base <= 16 ->
  forallb (fun c => digit_value c <? base) d = true ->
  forall acc seen,
    d <> [] \/ seen = true ->
    digits base d acc false seen
    = Some (fold_left (fun a c => a * base + digit_value c) d acc, []).
Proof.
  intros Hbase. induction d as [| c d IH]; intros Hall acc seen Hne.
  - destruct Hne as [Hne | ->]; [contradiction | reflexivity].
  - simpl in Hall. apply andb_true_iff in Hall. destruct Hall as [Hc Hd].
    assert (Hhex : hex_digit c = true).
    { unfold hex_digit. apply Z.ltb_lt in Hc. apply Z.ltb_lt. lia. }
    destruct (hex_digit_char c Hhex) as [_ [_ [_ [Hus _]]]].
    simpl. rewrite Hus, Hc.
    apply IH; [exact Hd | right; reflexivity].
Qed.

(** [int] reads a non-empty string of digits as the number it denotes. *)
Lemma int_of_digits (base : Z) (d : str) :
  base <= 16 -> d <> [] ->
  forallb (fun c => digit_value c <? base) d = true ->
  int base d = Some (number base d).
Proof.
  intros Hbase Hne Hall.
  pose proof (digits_all base d Hbase Hall 0 false (or_introl Hne)) as Hdig.
  destruct d as [| a m]; [contradiction |].
  assert (Hhex : forall c, In c (a :: m) -> hex_digit c = true).
  { intros c Hc. rewrite forallb_forall in Hall. specialize (Hall c Hc).
    unfold hex_digit. apply Z.ltb_lt in Hall. apply Z.ltb_lt. lia. }
  destruct (hex_digit_char a (Hhex a (or_introl eq_refl)))
    as [Hsp [Hplus [Hminus [Hus _]]]].
  unfold int. rewrite lstrip_head by exact Hsp.
  unfold strip_sign. rewrite Hplus, Hminus.
  assert (Hpre : strip_prefix base (a :: m) = a :: m).
  { unfold strip_prefix. destruct m as [| x r]; [reflexivity |].
    destruct (hex_digit_char x (Hhex x (or_intror (or_introl eq_refl))))
      as [_ [_ [_ [_ [Hx [HX _]]]]]].
    rewrite Hx, HX, andb_false_r. reflexivity. }
  rewrite Hpre. unfold starts_with_underscore. rewrite Hus.
  rewrite Hdig. simpl lstrip. unfold number.
  rewrite Z.mul_1_l. reflexivity.
Qed.

(** *** Foreign characters *)

Lemma in_strip_sign (c : ascii) (s : str) :
  alien c = true -> In c s -> In c (snd (strip_sign s)).
Proof.
  intros Hc Hin. destruct (alien_char c Hc) as [_ [Hplus [Hminus _]]].
  unfold strip_sign. destruct s as [| a r]; [exact Hin |].
  destruct (Ascii.eqb_spec a "+"%char) as [-> | _].
  - destruct Hin as [<- | Hin]; [discriminate Hplus | exact Hin].
  - destruct (Ascii.eqb_spec a "-"%char) as [-> | _]; [| exact Hin].
    destruct Hin as [<- | Hin]; [discriminate Hminus | exact Hin].
Qed.

Lemma in_strip_prefix (base : Z) (c : ascii) (s : str) :
  alien c = true -> In c s -> In c (strip_prefix base s).
Proof.
  intros Hc Hin.
  destruct (alien_char c Hc) as [_ [_ [_ [Hus [Hx [HX [H0 _]]]]]]].
  unfold strip_prefix. destruct s as [| a [| x r]]; try exact Hin.
  destruct ((base =? 16) && Ascii.eqb a "0"%char
            && (Ascii.eqb x "x"%char || Ascii.eqb x "X"%char))%bool eqn:Hp;
    [| exact Hin].
  apply andb_true_iff in Hp. destruct Hp as [Hp Hxx].
  apply andb_true_iff in Hp. destruct Hp as [_ Ha].
  apply Ascii.eqb_eq in Ha. subst a.
  assert (Hr : In c r).
  { destruct Hin as [<- | [<- | Hin]]; [discriminate H0 | | exact Hin].
    rewrite Hx, HX in Hxx. discriminate Hxx. }
  destruct r as [| u r']; [exact Hr |].
  destruct (Ascii.eqb_spec u underscore) as [-> | _]; [| exact Hr].
  destruct Hr as [<- | Hr]; [discriminate Hus | exact Hr].
Qed.

Lemma digits_alien (base : Z) (c : ascii) (s : str) :
  base <= 16 -> alien c = true -> In c s ->
  forall acc p seen,
    match digits base s acc p seen with
    | Some (_, rest) => In c rest
    | None => True
    end.
Proof.
  intros Hbase Hc.
  destruct (alien_char c Hc) as [_ [_ [_ [Hus [_ [_ [_ Hv]]]]]]].
  induction s as [| a s IH]; intros Hin acc p seen; [contradiction |].
  simpl.
  destruct (Ascii.eqb_spec a underscore) as [-> | _].
  - destruct p; [exact I |].
    apply IH. destruct Hin as [<- | Hin]; [discriminate Hus | exact Hin].
  - destruct (Z.ltb_spec (digit_value a) base) as [Ha | Ha].
    + apply IH. destruct Hin as [<- | Hin]; [lia | exact Hin].
    + destruct (p || negb seen)%bool; [exact I | exact Hin].
Qed.

(** [int] raises on every string that holds a foreign character. *)
Lemma int_alien (base : Z) (c : ascii) (s : str) :
  base <= 16 -> alien c = true -> In c s -> int base s = None.
Proof.
  intros Hbase Hc Hin.
  destruct (alien_char c Hc) as [Hsp _].
  unfold int.
  pose proof (in_strip_sign c (lstrip s) Hc (in_lstrip c s Hsp Hin)) as H2.
  destruct (strip_sign (lstrip s)) as [sign s2]. simpl in H2.
  pose proof (in_strip_prefix base c s2 Hc H2) as H3.
  destruct (starts_with_underscore (strip_prefix base s2)); [reflexivity |].
  pose proof (digits_alien base c _ Hbase Hc H3 0 false false) as H4.
  destruct (digits base (strip_prefix base s2) 0 false false)
    as [[v rest] |]; [| reflexivity].
  pose proof (in_lstrip c rest Hsp H4) as H5.
  destruct (lstrip rest); [contradiction | reflexivity].
Qed.

(** *** Splitting *)

Lemma split_no_sep (sep : ascii) (d : str) :
  ~ In sep d -> split sep d = [d].
Proof.
  induction d as [| c d IH]; intros Hd; [reflexivity |].
  simpl. destruct (Ascii.eqb_spec c sep) as [-> | _].
  - exfalso. apply Hd. left. reflexivity.
  - rewrite IH by (intros Hin; apply Hd; right; exact Hin). reflexivity.
Qed.

Lemma split_app_sep (sep : ascii) (d r : str) :
  ~ In sep d -> split sep (d ++ sep :: r) = d :: split sep r.
Proof.
  induction d as [| c d IH]; intros Hd; simpl.
  - rewrite Ascii.eqb_refl. reflexivity.
  - destruct (Ascii.eqb_spec c sep) as [-> | _].
    + exfalso. apply Hd. left. reflexivity.
    + rewrite IH by (intros Hin; apply Hd; right; exact Hin). reflexivity.
Qed.


End PyStrFacts.

(* ------------------------------------------------------------------ *)
(** ** The colour parser *)

Section ColourParser.
Import PyStr PyStrFacts.

Lemma try_map_length {A B} (f : A -> option B) (xs : list A) (ys : list B) :
  try_map f xs = Some ys -> List.length ys = List.length xs.
Proof.
  revert ys. induction xs as [| x xs IH]; intros ys; simpl.
  - intros Hys. inversion Hys. reflexivity.
  - destruct (f x); [| discriminate].
    destruct (try_map f xs) as [zs |]; [| discriminate].
    intros Hys. inversion Hys. simpl. f_equal. apply IH. reflexivity.
Qed.

Lemma try_map_none {A B} (f : A -> option B) (xs : list A) (x : A) :
  In x xs -> f x = None -> try_map f xs = None.
Proof.
  intros Hin Hx. induction xs as [| a xs IH]; [contradiction |].
  simpl. destruct Hin as [-> | Hin].
  - rewrite Hx. reflexivity.
  - destruct (f a); [| reflexivity]. rewrite (IH Hin). reflexivity.
Qed.

Lemma try_map_some {A B} (f : A -> option B) (g : A -> B) (xs : list A) :
  (forall x, In x xs -> f x = Some (g x)) ->
  try_map f xs = Some (map g xs).
Proof.
  induction xs as [| a xs IH]; intros Hf; [reflexivity |].
  simpl. rewrite (Hf a (or_introl eq_refl)).
  rewrite IH by (intros x Hx; apply Hf; right; exact Hx). reflexivity.
Qed.

(** The parser always returns four components. *)
Lemma parse_hex_length (cs : str) (t : list Z) :
  parse_hex cs = Some t -> List.length t = 4%nat.
Proof.
  unfold parse_hex. destruct (List.length cs =? 6)%nat.
  - destruct (try_map _ _) as [u |] eqn:Hu; [| discriminate].
    intros Ht. inversion Ht. apply try_map_length in Hu.
    rewrite length_app, Hu. reflexivity.
  - destruct (List.length cs =? 8)%nat; [| discriminate].
    intros Ht. apply try_map_length in Ht. exact Ht.
Qed.

Lemma parse_decimal_length (cs : str) (t : list Z) :
  parse_decimal cs = Some t -> List.length t = 4%nat.
Proof.
  unfold parse_decimal. destruct (try_map _ _) as [parts |]; [| discriminate].
  destruct (Nat.eqb_spec (List.length parts) 3) as [H3 | _].
  - intros Ht. inversion Ht. rewrite length_app, H3. reflexivity.
  - destruct (Nat.eqb_spec (List.length parts) 4) as [H4 | _];
      [| discriminate].
    intros Ht. inversion Ht. subst. exact H4.
Qed.

Lemma parse_length (s : string) :
  List.length (_parse_color_string s) = 4%nat.
Proof.
  unfold _parse_color_string.
  destruct (strip (of_string s)) as [| a m]; [reflexivity |].
  destruct (parse_hex (a :: m)) as [t |] eqn:Hhex;
    [apply parse_hex_length in Hhex; exact Hhex |].
  destruct (parse_decimal (a :: m)) as [t |] eqn:Hdec;
    [apply parse_decimal_length in Hdec; exact Hdec | reflexivity].
Qed.

(** The hexadecimal attempt fails on a foreign character. *)
Lemma parse_hex_alien (c : ascii) (cs : str) :
  alien c = true -> In c cs -> parse_hex cs = None.
Proof.
  intros Hc Hin. unfold parse_hex.
  assert (Hint : forall t, In c t -> int 16 t = None).
  { intros t Ht. apply (int_alien 16 c); [lia | exact Hc | exact Ht]. }
  destruct (Nat.eqb_spec (List.length cs) 6) as [H6 | _].
  - destruct cs as [| c0 [| c1 [| c2 [| c3 [| c4 [| c5 [| ? ?]]]]]]];
      try discriminate H6.
    assert (Hnone : try_map (fun i => int 16 (slice [c0; c1; c2; c3; c4; c5]
                                                i (i + 2)))
                      [0; 2; 4]%nat = None).
    { simpl in Hin.
      destruct Hin as [<- | [<- | [<- | [<- | [<- | [<- | []]]]]]].
      - apply (try_map_none _ _ 0%nat); [simpl; auto | apply Hint; simpl; auto].
      - apply (try_map_none _ _ 0%nat); [simpl; auto | apply Hint; simpl; auto].
      - apply (try_map_none _ _ 2%nat); [simpl; auto | apply Hint; simpl; auto].
      - apply (try_map_none _ _ 2%nat); [simpl; auto | apply Hint; simpl; auto].
      - apply (try_map_none _ _ 4%nat); [simpl; auto | apply Hint; simpl; auto].
      - apply (try_map_none _ _ 4%nat); [simpl; auto | apply Hint; simpl; auto]. }
    rewrite Hnone. reflexivity.
  - destruct (Nat.eqb_spec (List.length cs) 8) as [H8 | _]; [| reflexivity].
    destruct cs as [| c0 [| c1 [| c2 [| c3 [| c4 [| c5 [| c6 [| c7 [| ? ?]]]]]]]]];
      try discriminate H8.
    simpl in Hin.
    destruct Hin as [<- | [<- | [<- | [<- | [<- | [<- | [<- | [<- | []]]]]]]]].
    + apply (try_map_none _ _ 0%nat); [simpl; auto | apply Hint; simpl; auto].
    + apply (try_map_none _ _ 0%nat); [simpl; auto | apply Hint; simpl; auto].
    + apply (try_map_none _ _ 2%nat); [simpl; auto | apply Hint; simpl; auto].
    + apply (try_map_none _ _ 2%nat); [simpl; auto | apply Hint; simpl; auto].
    + apply (try_map_none _ _ 4%nat); [simpl; auto | apply Hint; simpl; auto].
    + apply (try_map_none _ _ 4%nat); [simpl; auto | apply Hint; simpl; auto].
    + apply (try_map_none _ _ 6%nat); [simpl; auto 6 | apply Hint; simpl; auto].
    + apply (try_map_none _ _ 6%nat); [simpl; auto 6 | apply Hint; simpl; auto].
Qed.


Lemma int16_pair (a b : ascii) :
  hex_digit a = true -> hex_digit b = true ->
  int 16 [a; b] = Some (number 16 [a; b]).
Proof.
  intros Ha Hb. apply int_of_digits; [lia | discriminate |].
  simpl. unfold hex_digit in Ha, Hb. rewrite Ha, Hb. reflexivity.
Qed.

Lemma parse_hex_6 (cs : str) :
  hex_form 6 cs = true ->
  parse_hex cs
  = Some [number 16 (slice cs 0 2); number 16 (slice cs 2 4);
          number 16 (slice cs 4 6); 255].
Proof.
  unfold hex_form. intros Hf. apply andb_true_iff in Hf.
  destruct Hf as [H6 Hall]. apply Nat.eqb_eq in H6.
  destruct cs as [| c0 [| c1 [| c2 [| c3 [| c4 [| c5 [| ? ?]]]]]]];
    try discriminate H6.
  simpl in Hall.
  repeat (apply andb_true_iff in Hall; destruct Hall as [? Hall]).
  unfold parse_hex. cbn [List.length Nat.eqb try_map slice Nat.add Nat.sub
                           skipn firstn].
  rewrite !int16_pair by assumption. reflexivity.
Qed.

Lemma parse_hex_8 (cs : str) :
  hex_form 8 cs = true ->
  parse_hex cs
  = Some [number 16 (slice cs 0 2); number 16 (slice cs 2 4);
          number 16 (slice cs 4 6); number 16 (slice cs 6 8)].
Proof.
  unfold hex_form. intros Hf. apply andb_true_iff in Hf.
  destruct Hf as [H8 Hall]. apply Nat.eqb_eq in H8.
  destruct cs as [| c0 [| c1 [| c2 [| c3 [| c4 [| c5 [| c6 [| c7 [| ? ?]]]]]]]]];
    try discriminate H8.
  simpl in Hall.
  repeat (apply andb_true_iff in Hall; destruct Hall as [? Hall]).
  unfold parse_hex. cbn [List.length Nat.eqb try_map slice Nat.add Nat.sub
                           skipn firstn].
  rewrite !int16_pair by assumption. reflexivity.
Qed.

Lemma hex_form_strip (n : nat) (cs : str) :
  hex_form n cs = true -> n <> 0%nat -> strip cs = cs /\ cs <> [].
Proof.
  unfold hex_form. intros Hf Hn. apply andb_true_iff in Hf.
  destruct Hf as [Hlen Hall]. apply Nat.eqb_eq in Hlen.
  assert (Hne : cs <> []) by (intros ->; simpl in Hlen; lia).
  split; [| exact Hne].
  rewrite forallb_forall in Hall.
  apply strip_nonspace_ends; [exact Hne | |].
  - destruct cs as [| a m]; [contradiction |]. simpl.
    apply hex_digit_char, Hall. left. reflexivity.
  - apply hex_digit_char, Hall.
    rewrite (app_removelast_last " "%char Hne) at 2.
    apply in_or_app. right. left. reflexivity.
Qed.

Lemma number16_pair_byte (a b : ascii) :
  hex_digit a = true -> hex_digit b = true -> byte (number 16 [a; b]).
Proof.
  intros Ha Hb.
  destruct (hex_digit_char a Ha) as [_ [_ [_ [_ [_ [_ [_ Hva]]]]]]].
  destruct (hex_digit_char b Hb) as [_ [_ [_ [_ [_ [_ [_ Hvb]]]]]]].
  unfold number, byte. simpl. lia.
Qed.

End ColourParser.

Section DecimalColours.
Import PyStr PyStrFacts.

Lemma dec_component_facts (p : str) :
  dec_component p = true ->
  p <> [] /\ (forall c, In c p -> hex_digit c = true) /\
  forallb (fun c => digit_value c <? 10) p = true.
Proof.
  unfold dec_component. intros Hp. apply andb_true_iff in Hp.
  destruct Hp as [Hlen Hall]. apply negb_true_iff, Nat.eqb_neq in Hlen.
  split; [intros ->; apply Hlen; reflexivity |].
  split; [| exact Hall].
  intros c Hc. rewrite forallb_forall in Hall.
  apply dec_digit_hex, Hall, Hc.
Qed.

Lemma dec_component_no_comma (p : str) :
  dec_component p = true -> ~ In comma p.
Proof.
  intros Hp Hin. destruct (dec_component_facts p Hp) as [_ [Hhex _]].
  specialize (Hhex comma Hin). discriminate Hhex.
Qed.

Lemma dec_component_ends (p : str) :
  dec_component p = true ->
  exists a m r z, p = a :: m /\ p = r ++ [z] /\
                  isspace a = false /\ isspace z = false.
Proof.
  intros Hp. destruct (dec_component_facts p Hp) as [Hne [Hhex _]].
  destruct p as [| a m]; [contradiction |].
  exists a, m, (removelast (a :: m)), (last (a :: m) " "%char).
  pose proof (app_removelast_last " "%char Hne) as Hlast.
  split; [reflexivity | split; [exact Hlast | split]].
  - apply hex_digit_char, Hhex. left. reflexivity.
  - apply hex_digit_char, Hhex. rewrite Hlast at 2.
    apply in_or_app. right. left. reflexivity.
Qed.

Lemma dec_component_int (p : str) :
  dec_component p = true -> int 10 (strip p) = Some (number 10 p).
Proof.
  intros Hp. destruct (dec_component_facts p Hp) as [Hne [_ Hall]].
  destruct (dec_component_ends p Hp) as [a [m [r [z [Ha [Hz [Hsa Hsz]]]]]]].
  rewrite (strip_id p a z m r Ha Hz Hsa Hsz).
  apply int_of_digits; [lia | exact Hne | exact Hall].
Qed.

Lemma join_ends (parts : list str) :
  parts <> [] -> forallb dec_component parts = true ->
  exists a m r z, join comma parts = a :: m /\ join comma parts = r ++ [z] /\
                  isspace a = false /\ isspace z = false.
Proof.
  induction parts as [| p ps IH]; intros Hne Hall; [contradiction |].
  simpl in Hall. apply andb_true_iff in Hall. destruct Hall as [Hp Hps].
  destruct (dec_component_ends p Hp) as [a [m [r [z [Ha [Hz [Hsa Hsz]]]]]]].
  destruct ps as [| q ps].
  - exists a, m, r, z. simpl. auto.
  - destruct (IH ltac:(discriminate) Hps)
      as [a' [m' [r' [z' [Ha' [Hz' [Hsa' Hsz']]]]]]].
    exists a, (m ++ comma :: join comma (q :: ps)),
      (p ++ comma :: r'), z'.
    change (join comma (p :: q :: ps))
      with (p ++ comma :: join comma (q :: ps)).
    split; [rewrite Ha; reflexivity |].
    split; [| split; assumption].
    rewrite Hz' at 1. rewrite <- app_assoc. reflexivity.
Qed.

Lemma split_join (parts : list str) :
  parts <> [] -> forallb dec_component parts = true ->
  split comma (join comma parts) = parts.
Proof.
  induction parts as [| p ps IH]; intros Hne Hall; [contradiction |].
  simpl in Hall. apply andb_true_iff in Hall. destruct Hall as [Hp Hps].
  pose proof (dec_component_no_comma p Hp) as Hno.
  destruct ps as [| q ps].
  - simpl. apply split_no_sep. exact Hno.
  - change (join comma (p :: q :: ps))
      with (p ++ comma :: join comma (q :: ps)).
    rewrite split_app_sep by exact Hno.
    rewrite IH by (discriminate || exact Hps). reflexivity.
Qed.

Lemma join_has_comma (p q : str) (ps : list str) :
  In comma (join comma (p :: q :: ps)).
Proof.
  change (join comma (p :: q :: ps))
    with (p ++ comma :: join comma (q :: ps)).
  apply in_or_app. right. left. reflexivity.
Qed.

(** The parser on comma-separated decimal components. *)
Lemma parse_joined (parts : list str) :
  forallb dec_component parts = true ->
  (2 <= List.length parts)%nat ->
  _parse_color_string (to_string (join comma parts))
  = if (List.length parts =? 3)%nat then map (number 10) parts ++ [255]
    else if (List.length parts =? 4)%nat then map (number 10) parts
    else [0; 0; 0; 0].
Proof.
  intros Hall Hlen.
  assert (Hne : parts <> []) by (intros ->; simpl in Hlen; lia).
  destruct (join_ends parts Hne Hall) as [a [m [r [z [Ha [Hz [Hsa Hsz]]]]]]].
  unfold _parse_color_string, of_string, to_string.
  rewrite list_ascii_of_string_of_list_ascii.
  rewrite (strip_id _ a z m r Ha Hz Hsa Hsz).
  assert (Hcomma : In comma (join comma parts)).
  { destruct parts as [| p [| q ps]]; simpl in Hlen; try lia.
    apply join_has_comma. }
  rewrite (parse_hex_alien comma _ comma_alien Hcomma).
  unfold parse_decimal. rewrite split_join by assumption.
  rewrite (try_map_some _ (number 10)).
  - rewrite length_map, Ha.
    destruct (List.length parts =? 3)%nat; [reflexivity |].
    destruct (List.length parts =? 4)%nat; reflexivity.
  - intros p Hp. apply dec_component_int.
    rewrite forallb_forall in Hall. apply Hall, Hp.
Qed.



Lemma parse_hex_form (s : string) :
  let cs := strip (of_string s) in
  (hex_form 6 cs = true ->
   _parse_color_string s
   = [number 16 (slice cs 0 2); number 16 (slice cs 2 4);
      number 16 (slice cs 4 6); 255]) /\
  (hex_form 8 cs = true ->
   _parse_color_string s
   = [number 16 (slice cs 0 2); number 16 (slice cs 2 4);
      number 16 (slice cs 4 6); number 16 (slice cs 6 8)]).
Proof.
  intros cs. unfold _parse_color_string. fold cs.
  split; intros Hf.
  - destruct (hex_form_strip 6 cs Hf ltac:(lia)) as [_ Hne].
    rewrite (parse_hex_6 cs Hf).
    destruct cs; [contradiction | reflexivity].
  - destruct (hex_form_strip 8 cs Hf ltac:(lia)) as [_ Hne].
    rewrite (parse_hex_8 cs Hf).
    destruct cs; [contradiction | reflexivity].
Qed.

End DecimalColours.

(* ------------------------------------------------------------------ *)
(** ** C5: what the colour parser returns *)




(* ------------------------------------------------------------------ *)
(** ** C6: the range of the parsed colour *)

Lemma digit_value_nonneg (c : ascii) : 0 <= PyStr.digit_value c.
Proof.
  destruct c as [[] [] [] [] [] [] [] []]; vm_compute; discriminate.
Qed.

Lemma number_nonneg (base : Z) (d : PyStr.str) :
  0 <= base -> 0 <= number base d.
Proof.
  intros Hbase. unfold number.
  assert (Hgen : forall acc, 0 <= acc ->
            0 <= fold_left (fun a c => a * base + PyStr.digit_value c) d acc).
  { induction d as [| c d IH]; intros acc Hacc; simpl; [exact Hacc |].
    apply IH. pose proof (digit_value_nonneg c). nia. }
  apply Hgen. lia.
Qed.

Lemma ink_RGBA_bytes (color : list Z) : byte_RGBA (ink_RGBA color).
Proof.
  unfold ink_RGBA.
  destruct color as [| r [| g [| b [| a [| ? ?]]]]];
    try (vm_compute; intuition discriminate).
  - repeat split; try apply clip8_byte; lia.
  - repeat split; apply clip8_byte.
Qed.

Lemma slice_pair_byte (cs : PyStr.str) (i : nat) :
  forallb hex_digit cs = true ->
  List.length (PyStr.slice cs i (i + 2)) = 2%nat ->
  byte (number 16 (PyStr.slice cs i (i + 2))).
Proof.
  intros Hall Hlen.
  assert (Hin : forall c, In c (PyStr.slice cs i (i + 2)) ->
                          hex_digit c = true).
  { intros c Hc. rewrite forallb_forall in Hall. apply Hall.
    unfold PyStr.slice in Hc.
    rewrite <- (firstn_skipn i cs). apply in_or_app. right.
    rewrite <- (firstn_skipn (i + 2 - i) (skipn i cs)).
    apply in_or_app. left. exact Hc. }
  destruct (PyStr.slice cs i (i + 2)) as [| a [| b [| ? ?]]];
    try discriminate Hlen.
  apply number16_pair_byte; apply Hin; simpl; auto.
Qed.

(** C6, as stated, fails: decimal components are returned as written, so
    "300,0,0" gives a first component of 300 and "-1,-2,-3" gives negative
    ones. *)
Lemma C6_component_out_of_range :
  _parse_color_string "300,0,0" = [300; 0; 0; 255] /\
  ~ Forall byte (_parse_color_string "300,0,0") /\
  _parse_color_string "-1,-2,-3" = [-1; -2; -3; 255].
Proof.
  split; [reflexivity | split; [| reflexivity]].
  intros Hall. vm_compute in Hall. inversion Hall as [| x l [_ Hx] Hl].
  apply Hx. reflexivity.
Qed.

(** C6 (amended): for every fill_color string the parser returns a tuple
    of exactly four integers.  Each lies in [0,255] when the stripped string
    is six or eight hex digits, and when it is three or four comma-separated
    decimal numbers none of which exceeds 255; the parser itself does not
    clamp.  The colour Pillow builds from the tuple is clipped to [0,255]
    in every component. *)
Theorem C6_parsed_colour_range :
  (forall s, List.length (_parse_color_string s) = 4%nat) /\
  (forall s,
     let cs := PyStr.strip (PyStr.of_string s) in
     (hex_form 6 cs || hex_form 8 cs)%bool = true ->
     Forall byte (_parse_color_string s)) /\
  (forall parts, forallb dec_component parts = true ->
     List.length parts = 3%nat \/ List.length parts = 4%nat ->
     Forall (fun p => number 10 p <= 255) parts ->
     Forall byte (_parse_color_string (PyStr.to_string (join comma parts)))) /\
  (forall s, byte_RGBA (ink_RGBA (_parse_color_string s))).
Proof.
  split; [exact parse_length | split; [| split]].
  - intros s cs Hf. apply orb_true_iff in Hf.
    destruct (parse_hex_form s) as [H6 H8]. fold cs in H6, H8.
    destruct Hf as [Hf | Hf].
    + rewrite (H6 Hf). unfold hex_form in Hf.
      apply andb_true_iff in Hf. destruct Hf as [Hlen Hall].
      apply Nat.eqb_eq in Hlen.
      repeat constructor; try (unfold byte; lia);
        apply slice_pair_byte; try exact Hall;
        unfold PyStr.slice; rewrite length_firstn, length_skipn; lia.
    + rewrite (H8 Hf). unfold hex_form in Hf.
      apply andb_true_iff in Hf. destruct Hf as [Hlen Hall].
      apply Nat.eqb_eq in Hlen.
      repeat constructor;
        apply slice_pair_byte; try exact Hall;
        unfold PyStr.slice; rewrite length_firstn, length_skipn; lia.
  - intros parts Hall Hlen Hmax.
    assert (Hparts : Forall byte (map (number 10) parts)).
    { apply Forall_map. eapply Forall_impl; [| exact Hmax].
      intros p Hp. split; [apply number_nonneg; lia | exact Hp]. }
    rewrite parse_joined by (assumption || lia).
    destruct Hlen as [-> | ->]; simpl Nat.eqb; cbv iota.
    + apply Forall_app. split; [exact Hparts |].
      constructor; [unfold byte; lia | constructor].
    + exact Hparts.
  - intros s. apply ink_RGBA_bytes.
Qed.

Lemma C6_parsed_colour_range_witness :
  (hex_form 6 (PyStr.strip (PyStr.of_string " c0ffee "))
   || hex_form 8 (PyStr.strip (PyStr.of_string " c0ffee ")))%bool = true /\
  Forall byte (_parse_color_string " c0ffee ").
Proof.
  split; [reflexivity |].
  exact (proj1 (proj2 C6_parsed_colour_range) " c0ffee "%string eq_refl).
Defined.


(* ================================================================== *)
(** * Further properties of the operation *)

(* ------------------------------------------------------------------ *)
(** ** Wrap mode: where each pixel comes from *)

Lemma offset_start_shift (n a x : Z) :
  0 < n -> 0 <= x ->
  0 <= Z.rem (x + offset_start n a) n < n /\
  Z.rem (x + offset_start n a) n = (x - a) mod n.
Proof.
  intros Hn Hx.
  destruct (offset_start_spec n a Hn) as [Hs0 Hs].
  rewrite Z.rem_mod_nonneg by lia.
  split; [apply Z.mod_pos_bound; lia |].
  replace (x + offset_start n a) with ((x - a) + (offset_start n a + a)) by lia.
  rewrite Zplus_mod, Hs, Z.add_0_r, Zmod_mod. reflexivity.
Qed.

(** The wrapped image reads the source at the index moved back by the
    offset, modulo the size. *)
Lemma offset_as_mod {P} `{Pixel P} (im : PIL.image P) (ox oy : Z) :
  offset im ox oy
  = tabulate (width im) (height im)
      (fun x y =>
         getpixel im
           (Z.to_nat ((Z.of_nat x - ox) mod Z.of_nat (width im)))
           (Z.to_nat ((Z.of_nat y - oy) mod Z.of_nat (height im)))).
Proof.
  unfold offset. apply tabulate_ext. intros x y Hx Hy.
  destruct (offset_start_shift (Z.of_nat (width im)) ox (Z.of_nat x))
    as [_ ->]; [lia | lia |].
  destruct (offset_start_shift (Z.of_nat (height im)) oy (Z.of_nat y))
    as [_ ->]; [lia | lia |].
  reflexivity.
Qed.

Lemma mod_index_lt (n : nat) (z : Z) :
  (0 < n)%nat -> (Z.to_nat (z mod Z.of_nat n) < n)%nat.
Proof.
  intros Hn. pose proof (Z.mod_pos_bound z (Z.of_nat n) ltac:(lia)). lia.
Qed.

Lemma offset_offset {P} `{Pixel P} (im : PIL.image P) (a b c d : Z) :
  offset (offset im a b) c d = offset im (a + c) (b + d).
Proof.
  rewrite (offset_as_mod (offset im a b)), (offset_as_mod im (a + c)).
  change (width (offset im a b)) with (width im).
  change (height (offset im a b)) with (height im).
  apply tabulate_ext. intros x y Hx Hy.
  rewrite offset_as_mod.
  rewrite getpixel_tabulate by (apply mod_index_lt; lia).
  rewrite !Z2Nat.id by (apply Z.mod_pos_bound; lia).
  f_equal; f_equal.
  - rewrite Zminus_mod_idemp_l. f_equal. lia.
  - rewrite Zminus_mod_idemp_l. f_equal. lia.
Qed.

Lemma offset_period {P} `{Pixel P} (im : PIL.image P) (a b k j : Z) :
  offset im (a + k * Z.of_nat (width im)) (b + j * Z.of_nat (height im))
  = offset im a b.
Proof.
  rewrite !offset_as_mod. apply tabulate_ext. intros x y Hx Hy.
  f_equal; f_equal.
  - replace (Z.of_nat x - (a + k * Z.of_nat (width im)))
      with (Z.of_nat x - a + (- k) * Z.of_nat (width im)) by lia.
    apply Z_mod_plus_full.
  - replace (Z.of_nat y - (b + j * Z.of_nat (height im)))
      with (Z.of_nat y - b + (- j) * Z.of_nat (height im)) by lia.
    apply Z_mod_plus_full.
Qed.

Lemma offset_zero {P} `{Pixel P} (im : PIL.image P) :
  well_formed im -> offset im 0 0 = im.
Proof.
  intros Hwf. rewrite offset_as_mod.
  transitivity (tabulate (width im) (height im) (getpixel im));
    [| apply tabulate_getpixel; exact Hwf].
  apply tabulate_ext. intros x y Hx Hy.
  rewrite !Z.sub_0_r, !Z.mod_small, !Nat2Z.id by lia. reflexivity.
Qed.

Lemma apply_offset_wrap_compose (a b c d : Z) (fc fc' fc'' : list Z)
    (conn conn' conn'' : bool) (st : locals) :
  apply_offset c d "On" fc' conn' (apply_offset a b "On" fc conn st)
  = apply_offset (a + c) (b + d) "On" fc'' conn'' st.
Proof.
  unfold apply_offset. simpl. f_equal.
  - destruct (img_pil st) as [im |]; simpl; [| reflexivity].
    unfold offset_image. simpl. f_equal. apply offset_offset.
  - destruct (mask_pil st) as [mp |]; simpl; [| reflexivity].
    unfold offset_mask. simpl. f_equal. apply offset_offset.
Qed.

Lemma apply_offset_wrap_period (a b k j : Z) (fc : list Z) (conn : bool)
    (st : locals) :
  locals_ok st ->
  apply_offset (a + k * Z.of_nat (current_width st))
    (b + j * Z.of_nat (current_height st)) "On" fc conn st
  = apply_offset a b "On" fc conn st.
Proof.
  intros [Himg Hmask]. unfold apply_offset. f_equal.
  - destruct (img_pil st) as [im |]; simpl; [| reflexivity].
    destruct (Himg im eq_refl) as [_ [Hw Hh]].
    unfold offset_image. simpl. f_equal.
    rewrite <- Hw, <- Hh. apply offset_period.
  - destruct (mask_pil st) as [mp |]; simpl; [| reflexivity].
    destruct (Hmask mp eq_refl) as [_ [Hw Hh]].
    unfold offset_mask. simpl. f_equal.
    rewrite <- Hw, <- Hh. apply offset_period.
Qed.

(** X1: in wrap mode two offset phases in a row are one offset phase with
    the summed offsets, for every image and mask and whatever fill colours
    the runs use. *)
Theorem X1_wrap_offsets_add
    (image : option tensor3) (mask : option tensor2) (a b c d : Z)
    (fc fc' : list Z) (conn conn' : bool) :
  let st := initialize image mask in
  apply_offset c d "On" fc' conn' (apply_offset a b "On" fc conn st)
  = apply_offset (a + c) (b + d) "On" fc conn st.
Proof.
  intros st. apply apply_offset_wrap_compose.
Qed.

(** X2: in wrap mode the operation is periodic in the size of the image:
    adding a multiple of the width to offset_x and a multiple of the height
    to offset_y changes neither the returned image nor the returned mask. *)
Theorem X2_wrap_offset_periodic
    (image : option tensor3) (mask : option tensor2) (ox oy k j : Z)
    (fill_color invert_mask_output : string) :
  let st := initialize image mask in
  let run x y := apply_image_transformations x y "On" fill_color
                   invert_mask_output image mask in
  let ox' := ox + k * Z.of_nat (current_width st) in
  let oy' := oy + j * Z.of_nat (current_height st) in
  IMAGE (run ox' oy') = IMAGE (run ox oy) /\
  MASK (run ox' oy') = MASK (run ox oy).
Proof.
  intros st run ox' oy'.
  assert (Hst : transformed ox' oy' "On" fill_color image mask
                = transformed ox oy "On" fill_color image mask).
  { unfold transformed, ox', oy'. f_equal.
    apply apply_offset_wrap_period, initialize_ok. }
  unfold run, apply_image_transformations.
  destruct image, mask; try (rewrite Hst; split; reflexivity).
  split; reflexivity.
Qed.


(* ------------------------------------------------------------------ *)
(** ** The shape of what is returned *)

Lemma transformed_size (ox oy : Z) (wrap fill : string)
    (image : option tensor3) (mask : option tensor2) :
  let st := transformed ox oy wrap fill image mask in
  current_width st = current_width (initialize image mask) /\
  current_height st = current_height (initialize image mask).
Proof.
  unfold transformed.
  destruct (apply_mask_to_alpha_mask (is_some mask)
              (apply_offset ox oy wrap (_parse_color_string fill)
                 (is_some mask) (initialize image mask))) as [_ [-> ->]].
  split; reflexivity.
Qed.

Lemma initialize_size (image : option tensor3) (mask : option tensor2) :
  let st := initialize image mask in
  match image, mask with
  | Some t, _ =>
      current_width st = Np.shape1 t /\ current_height st = Np.shape0 t
  | None, Some m =>
      current_width st = Np.shape1 m /\ current_height st = Np.shape0 m
  | None, None => current_width st = 0%nat /\ current_height st = 0%nat
  end.
Proof.
  unfold initialize.
  destruct image as [t |], mask as [m |]; simpl;
    repeat match goal with
           | |- context [if ?b then _ else _] => destruct b
           end; simpl;
    try apply image_to_pil_size; try apply mask_to_pil_size;
    split; reflexivity.
Qed.




Lemma composite_over_fill_sized (fc : list Z) (w h : nat)
    (im : PIL.image RGBA) :
  sized w h im -> sized w h (composite_over_fill fc im).
Proof.
  intros [_ [Hw Hh]]. unfold composite_over_fill, convert_RGB, alpha_composite.
  cbn [width height tabulate new_RGBA]. rewrite Hw, Hh. apply sized_tabulate.
Qed.



(* ------------------------------------------------------------------ *)
(** ** The range of the returned image *)

Lemma shift_div255_bound (t : Z) :
  0 <= t <= 65153 -> byte (Z.shiftr (Z.shiftr t 8 + t) 8).
Proof.
  intros Ht. rewrite !Z.shiftr_div_pow2 by lia.
  change (2 ^ 8) with 256. unfold byte.
  assert (H1 : 0 <= t / 256 < 255).
  { split; [apply Z.div_pos; lia | apply Z.div_lt_upper_bound; lia]. }
  assert (H2 : (t / 256 + t) / 256 < 256)
    by (apply Z.div_lt_upper_bound; lia).
  split; [apply Z.div_pos; lia | lia].
Qed.

Lemma blend8_byte (m i1 i2 : Z) :
  byte m -> byte i1 -> byte i2 -> byte (blend8 m i1 i2).
Proof.
  unfold byte. intros Hm H1 H2. unfold blend8, div255.
  apply shift_div255_bound. nia.
Qed.

Lemma composite_channel_byte (s d coef1 : Z) :
  byte s -> byte d -> 0 <= coef1 <= 32640 ->
  byte (Z.shiftr
          (shift_for_div255 (s * coef1 + d * (255 * 128 - coef1) + 128 * 128))
          7).
Proof.
  unfold byte. intros Hs Hd Hc. unfold shift_for_div255.
  set (t := s * coef1 + d * (255 * 128 - coef1) + 128 * 128).
  assert (Ht : 16384 <= t <= 8339584) by (unfold t; nia).
  rewrite !Z.shiftr_div_pow2 by lia.
  change (2 ^ 8) with 256. change (2 ^ 7) with 128.
  assert (H1 : 0 <= t / 256 < 32577).
  { split; [apply Z.div_pos; lia | apply Z.div_lt_upper_bound; lia]. }
  assert (H2 : 0 <= (t / 256 + t) / 256 < 32704).
  { split; [apply Z.div_pos; lia | apply Z.div_lt_upper_bound; lia]. }
  assert (H3 : (t / 256 + t) / 256 / 128 < 256)
    by (apply Z.div_lt_upper_bound; lia).
  split; [apply Z.div_pos; lia | lia].
Qed.

Lemma composite_pixel_bytes (dst src : RGBA) :
  byte_RGBA dst -> byte_RGBA src -> byte_RGBA (composite_pixel dst src).
Proof.
  destruct dst as [[[dr dg] db] da], src as [[[sr sg] sb] sa].
  intros [Hdr [Hdg [Hdb Hda]]] [Hsr [Hsg [Hsb Hsa]]].
  unfold composite_pixel.
  destruct (Z.eqb_spec sa 0) as [_ | Hnz];
    [exact (conj Hdr (conj Hdg (conj Hdb Hda))) |].
  set (outa255 := sa * 255 + da * (255 - sa)).
  assert (Hout : 255 <= outa255 <= 65025) by (unfold outa255, byte in *; nia).
  assert (Hcoef : 0 <= sa * 255 * 255 * 128 / outa255 <= 32640).
  { split.
    - apply Z.div_pos; unfold byte in *; nia.
    - apply Z.div_le_upper_bound; unfold outa255, byte in *; nia. }
  split; [| split; [| split]].
  - apply composite_channel_byte; assumption.
  - apply composite_channel_byte; assumption.
  - apply composite_channel_byte; assumption.
  - apply shift_div255_bound. lia.
Qed.

Lemma byte_RGBA_tabulate (w h : nat) (f : nat -> nat -> RGBA) :
  (forall x y, byte_RGBA (f x y)) ->
  forall x y, byte_RGBA (getpixel (tabulate w h f) x y).
Proof.
  intros Hf x y. rewrite getpixel_tabulate_cases.
  destruct (_ && _)%bool; [apply Hf |].
  vm_compute. intuition discriminate.
Qed.

Lemma offset_image_bytes (ox oy : Z) (wrap : string) (fc : list Z)
    (w h : nat) (im : PIL.image RGBA) :
  (forall x y, byte_RGBA (getpixel im x y)) ->
  forall x y, byte_RGBA (getpixel (offset_image ox oy wrap fc w h im) x y).
Proof.
  intros Him. unfold offset_image. destruct (String.eqb wrap "On").
  - apply byte_RGBA_tabulate. intros x y. apply Him.
  - apply byte_RGBA_tabulate. intros x y.
    assert (Hcanvas : byte_RGBA (getpixel (new_RGBA w h fc) x y)).
    { apply byte_RGBA_tabulate. intros _ _. apply ink_RGBA_bytes. }
    destruct (paste_source _ _ _ _ _ _) as [[sx sy] |]; [| exact Hcanvas].
    assert (Hm : byte (getpixel (alpha_band im) sx sy)).
    { unfold alpha_band. rewrite getpixel_tabulate_cases.
      destruct (_ && _)%bool; [| unfold byte, blank, Pixel_L; lia].
      specialize (Him sx sy).
      destruct (getpixel im sx sy) as [[[r g] b] a]. apply Him. }
    specialize (Him sx sy).
    destruct (getpixel (new_RGBA w h fc) x y) as [[[r1 g1] b1] a1].
    destruct (getpixel im sx sy) as [[[r2 g2] b2] a2].
    destruct Hcanvas as [? [? [? ?]]], Him as [? [? [? ?]]].
    simpl. split; [| split; [| split]]; apply blend8_byte; assumption.
Qed.

Lemma initialize_image_bytes (image : option tensor3) (mask : option tensor2)
    (im : PIL.image RGBA) :
  img_pil (initialize image mask) = Some im ->
  forall x y, byte_RGBA (getpixel im x y).
Proof.
  unfold initialize.
  destruct image as [t |], mask as [m |]; simpl;
    repeat match goal with
           | |- context [if ?b then _ else _] => destruct b
           end; intros Him; inversion Him; subst;
    apply image_to_pil_bytes.
Qed.

Lemma transformed_image_bytes (ox oy : Z) (wrap fill : string)
    (image : option tensor3) (mask : option tensor2) (im : PIL.image RGBA) :
  img_pil (transformed ox oy wrap fill image mask) = Some im ->
  forall x y, byte_RGBA (getpixel im x y).
Proof.
  unfold transformed.
  set (st0 := initialize image mask).
  set (st1 := apply_offset ox oy wrap (_parse_color_string fill)
                (is_some mask) st0).
  assert (H1 : forall im1, img_pil st1 = Some im1 ->
                 forall x y, byte_RGBA (getpixel im1 x y)).
  { unfold st1, apply_offset. simpl. intros im1 Him1.
    destruct (img_pil st0) as [im0 |] eqn:Him0; [| discriminate].
    inversion Him1; subst. apply offset_image_bytes.
    apply (initialize_image_bytes image mask). exact Him0. }
  assert (H2 : forall mp, mask_pil st1 = Some mp -> byte_image mp).
  { unfold st1, apply_offset. simpl. intros mp Hmp.
    destruct (mask_pil st0) as [mp0 |] eqn:Hmp0; [| discriminate].
    inversion Hmp; subst. apply offset_mask_bytes.
    apply (initialize_mask_bytes image mask). exact Hmp0. }
  unfold apply_mask_to_alpha.
  destruct (img_pil st1) as [im1 |] eqn:Him1; [| intros Him; congruence].
  destruct (mask_pil st1) as [mp |] eqn:Hmp;
    [| intros Him; apply (H1 im); congruence].
  destruct (is_some mask); [| intros Him; apply (H1 im); congruence].
  simpl. intros Him. inversion Him; subst.
  apply byte_RGBA_tabulate. intros x y.
  pose proof (H1 im1 eq_refl x y) as Hp.
  assert (Ha : byte (getpixel (invert mp) x y)).
  { apply (invert_for_output_bytes "Yes" mp (H2 mp eq_refl)). }
  destruct (getpixel im1 x y) as [[[r g] b] a].
  destruct Hp as [Hr [Hg [Hb _]]]. exact (conj Hr (conj Hg (conj Hb Ha))).
Qed.

Lemma composite_over_fill_bytes (fc : list Z) (im : PIL.image RGBA) :
  (forall x y, byte_RGBA (getpixel im x y)) ->
  forall x y, byte_RGB (getpixel (composite_over_fill fc im) x y).
Proof.
  intros Him x y. unfold composite_over_fill, convert_RGB.
  rewrite getpixel_tabulate_cases.
  destruct (_ && _)%bool; [| vm_compute; intuition discriminate].
  assert (Hc : byte_RGBA
                 (getpixel
                    (alpha_composite
                       (new_RGBA (width im) (height im)
                          (fill_color_for_composite fc)) im) x y)).
  { apply byte_RGBA_tabulate. intros x' y'.
    apply composite_pixel_bytes; [| apply Him].
    apply byte_RGBA_tabulate. intros _ _. apply ink_RGBA_bytes. }
  destruct (getpixel _ x y) as [[[r g] b] a].
  destruct Hc as [Hr [Hg [Hb _]]]. exact (conj Hr (conj Hg Hb)).
Qed.

(** X4: every value of the returned image lies between 0.0 and 1.0, for
    every image, mask, offset, mode and fill colour. *)
Theorem X4_output_image_in_unit_interval
    (offset_x offset_y : Z) (wrap_around fill_color invert_mask_output : string)
    (image : option tensor3) (mask : option tensor2) :
  Forall (Forall (Forall (Forall unit_interval)))
    (IMAGE (apply_image_transformations offset_x offset_y wrap_around
              fill_color invert_mask_output image mask)).
Proof.
  assert (Hzeros : forall h w,
            Forall (Forall (Forall (Forall unit_interval)))
              [Np.zeros3 h w 3]).
  { intros h w. constructor; [| constructor]. unfold Np.zeros3.
    apply Forall_forall. intros r Hr. apply repeat_spec in Hr. subst r.
    apply Forall_forall. intros q Hq. apply repeat_spec in Hq. subst q.
    repeat constructor; discriminate. }
  destruct (is_some image || is_some mask)%bool eqn:Hin;
    [| destruct image, mask; try discriminate; apply Hzeros].
  rewrite apply_image_transformations_some by exact Hin. cbn [IMAGE].
  destruct (img_pil (transformed offset_x offset_y wrap_around fill_color
                       image mask)) as [im |] eqn:Him;
    cbn [option_map image_tensor]; [| apply Hzeros].
  constructor; [| constructor].
  destruct (transformed_ok offset_x offset_y wrap_around fill_color
              image mask) as [Himg _].
  pose proof (composite_over_fill_sized (_parse_color_string fill_color)
                _ _ _ (Himg im Him)) as [Hwf _].
  pose proof (composite_over_fill_bytes (_parse_color_string fill_color) im
                (transformed_image_bytes _ _ _ _ _ _ _ Him)) as Hbytes.
  pose proof (rows_Forall byte_RGB _ Hwf Hbytes) as Hall.
  unfold toarray_RGB. apply Forall_rows_map, Forall_rows_map.
  revert Hall. apply Forall_rows_impl.
  intros [[r g] b] [Hr [Hg Hb]].
  repeat constructor; apply div255_unit; assumption.
Qed.


(* ------------------------------------------------------------------ *)
(** ** The returned mask, pixel by pixel *)

Lemma nth_rows_map {A B} `{Pixel A} (f : A -> B) (im : PIL.image A)
    (x y : nat) (d : B) :
  well_formed im -> (x < width im)%nat -> (y < height im)%nat ->
  nth x (nth y (map (map f) (rows im)) []) d = f (getpixel im x y).
Proof.
  intros [Hlen Hrows] Hx Hy. unfold getpixel.
  change (@nil B) with (map f []). rewrite map_nth.
  assert (Hr : List.length (nth y (rows im) []) = width im).
  { rewrite Forall_forall in Hrows. apply Hrows, nth_In. lia. }
  rewrite (nth_indep _ d (f blank)) by (rewrite length_map; lia).
  apply map_nth.
Qed.

(** A returned mask pixel in terms of the offset mask. *)
Lemma mask_pixel_value (ox oy : Z) (wrap fill inv : string)
    (image : option tensor3) (mask : option tensor2) (mp : PIL.image L)
    (x y : nat) :
  is_some image || is_some mask = true ->
  mask_pil (transformed ox oy wrap fill image mask) = Some mp ->
  (x < width mp)%nat -> (y < height mp)%nat ->
  mask_pixel (apply_image_transformations ox oy wrap fill inv image mask) x y
  = mask_value (is_some mask)
      (if String.eqb inv "Yes" then 255 - getpixel mp x y
       else getpixel mp x y).
Proof.
  intros Hin Hmp Hx Hy.
  destruct (transformed_ok ox oy wrap fill image mask) as [_ Hmask].
  destruct (Hmask mp Hmp) as [Hwf _].
  unfold mask_pixel. rewrite apply_image_transformations_some by exact Hin.
  cbn [MASK]. rewrite Hmp. cbn [option_map].
  rewrite mask_tensor_rows by exact Hwf. cbn [hd].
  apply (nth_rows_map
           (fun v => mask_value (is_some mask)
                       (if String.eqb inv "Yes" then 255 - v else v)));
    assumption.
Qed.

Lemma to_uint8_zero : Np.to_uint8 0 = 0.
Proof. reflexivity. Qed.

Lemma getpixel_mask_to_pil (m : tensor2) (x y : nat) :
  (x < Np.shape1 m)%nat -> (y < Np.shape0 m)%nat ->
  getpixel (mask_to_pil m) x y = mask_byte m x y.
Proof.
  intros Hx Hy. unfold mask_to_pil, fromarray_L, mask_byte.
  rewrite getpixel_tabulate;
    [| unfold Np.shape0 in *;
       rewrite ?shape1_map, ?length_map by (intros; apply length_map); lia ..].
  change (@nil Z) with (map Np.to_uint8 []). rewrite map_nth.
  rewrite <- to_uint8_zero at 1. rewrite map_nth. reflexivity.
Qed.


Lemma paste_source_covered (w h : nat) (ox oy : Z) (x y : nat) :
  covered w h ox oy x y ->
  paste_source w h ox oy x y
  = Some (Z.to_nat (Z.of_nat x - ox), Z.to_nat (Z.of_nat y - oy)) /\
  (Z.to_nat (Z.of_nat x - ox) < w)%nat /\
  (Z.to_nat (Z.of_nat y - oy) < h)%nat.
Proof.
  intros [Hx Hy]. unfold paste_source.
  replace (0 <=? Z.of_nat x - ox) with true by (symmetry; apply Z.leb_le; lia).
  replace (0 <=? Z.of_nat y - oy) with true by (symmetry; apply Z.leb_le; lia).
  replace (Z.of_nat x - ox <? Z.of_nat w) with true
    by (symmetry; apply Z.ltb_lt; lia).
  replace (Z.of_nat y - oy <? Z.of_nat h) with true
    by (symmetry; apply Z.ltb_lt; lia).
  split; [reflexivity | lia].
Qed.

Lemma paste_source_vacated (w h : nat) (ox oy : Z) (x y : nat) :
  ~ covered w h ox oy x y -> paste_source w h ox oy x y = None.
Proof.
  intros Hnot. unfold paste_source.
  destruct ((0 <=? Z.of_nat x - ox) && (Z.of_nat x - ox <? Z.of_nat w)
            && (0 <=? Z.of_nat y - oy) && (Z.of_nat y - oy <? Z.of_nat h))%bool
    eqn:Hc; [| reflexivity].
  exfalso. apply Hnot.
  repeat (apply andb_true_iff in Hc; destruct Hc as [Hc ?]).
  unfold covered. rewrite ?Z.leb_le, ?Z.ltb_lt in *. lia.
Qed.

Lemma getpixel_offset {P} `{Pixel P} (im : PIL.image P) (ox oy : Z)
    (x y : nat) :
  (x < width im)%nat -> (y < height im)%nat ->
  getpixel (offset im ox oy) x y
  = getpixel im (Z.to_nat ((Z.of_nat x - ox) mod Z.of_nat (width im)))
      (Z.to_nat ((Z.of_nat y - oy) mod Z.of_nat (height im))).
Proof.
  intros Hx Hy. rewrite offset_as_mod.
  rewrite getpixel_tabulate by assumption. reflexivity.
Qed.



Lemma transformed_mask_image_only (ox oy : Z) (wrap fill : string)
    (t : tensor3) :
  mask_pil (transformed ox oy wrap fill (Some t) None)
  = Some (offset_mask ox oy wrap false (Np.shape1 t) (Np.shape0 t)
            (new_L (Np.shape1 t) (Np.shape0 t) 255)).
Proof.
  rewrite transformed_mask, initialize_image_only.
  destruct (image_to_pil_size t) as [-> ->]. reflexivity.
Qed.

Lemma mask_value_ends :
  mask_value true 255 = 0%Q /\ mask_value true 0 = 1%Q /\
  mask_value false 255 = 1%Q /\ mask_value false 0 = 0%Q.
Proof. repeat split; reflexivity. Qed.

Lemma offset_mask_size (ox oy : Z) (wrap : string) (conn : bool)
    (w h : nat) (mp : PIL.image L) :
  width mp = w -> height mp = h ->
  width (offset_mask ox oy wrap conn w h mp) = w /\
  height (offset_mask ox oy wrap conn w h mp) = h.
Proof.
  intros Hw Hh. unfold offset_mask.
  destruct (String.eqb wrap "On"); [rewrite <- Hw, <- Hh |]; split; reflexivity.
Qed.

Lemma getpixel_paste {P} `{Pixel P} (dst src : PIL.image P) (ox oy : Z)
    (x y : nat) :
  (x < width dst)%nat -> (y < height dst)%nat ->
  getpixel (paste dst src ox oy) x y
  = match paste_source (width src) (height src) ox oy x y with
    | Some (sx, sy) => getpixel src sx sy
    | None => getpixel dst x y
    end.
Proof.
  intros Hx Hy. unfold paste. rewrite getpixel_tabulate by assumption.
  reflexivity.
Qed.

Lemma getpixel_new_L (w h : nat) (c : Z) (x y : nat) :
  (x < w)%nat -> (y < h)%nat -> getpixel (new_L w h c) x y = clip8 c.
Proof.
  intros Hx Hy. unfold new_L. rewrite getpixel_tabulate by assumption.
  reflexivity.
Qed.

(** The mask after a clip-mode offset, at a pixel of the canvas. *)
Lemma getpixel_offset_mask_clip (ox oy : Z) (conn : bool) (w h : nat)
    (mp : PIL.image L) (x y : nat) :
  (x < w)%nat -> (y < h)%nat ->
  getpixel (offset_mask ox oy "Off" conn w h mp) x y
  = match paste_source (width mp) (height mp) ox oy x y with
    | Some (sx, sy) => getpixel mp sx sy
    | None => if conn then 255 else 0
    end.
Proof.
  intros Hx Hy. unfold offset_mask. cbn [String.eqb Ascii.eqb Bool.eqb].
  rewrite getpixel_paste by (simpl; assumption).
  destruct (paste_source _ _ _ _ _ _) as [[sx sy] |]; [reflexivity |].
  unfold temp_mask_img. rewrite getpixel_new_L by assumption.
  destruct conn; reflexivity.
Qed.



(** X6: in clip mode every pixel of the returned mask that no pixel of the
    shifted mask lands on is 0.0 (1.0 when invert_mask_output is "Yes"),
    whether the mask was supplied or synthesized. *)
Theorem X6_clip_mask_vacated
    (image : option tensor3) (mask : option tensor2) (ox oy : Z)
    (fill_color invert_mask_output : string) (x y : nat) :
  is_some image || is_some mask = true ->
  let st := initialize image mask in
  (x < current_width st)%nat -> (y < current_height st)%nat ->
  ~ covered (current_width st) (current_height st) ox oy x y ->
  mask_pixel (apply_image_transformations ox oy "Off" fill_color
                invert_mask_output image mask) x y
  = if String.eqb invert_mask_output "Yes" then 1%Q else 0%Q.
Proof.
  intros Hin st Hx Hy Hvac.
  destruct (initialize_mask_some image mask Hin) as [mp0 Hmp0].
  fold st in Hmp0.
  destruct (initialize_ok image mask) as [_ Hmask]. fold st in Hmask.
  destruct (Hmask mp0 Hmp0) as [_ [Hw Hh]].
  assert (Hmp : mask_pil (transformed ox oy "Off" fill_color image mask)
                = Some (offset_mask ox oy "Off" (is_some mask)
                          (current_width st) (current_height st) mp0)).
  { rewrite transformed_mask. fold st. rewrite Hmp0. reflexivity. }
  destruct (offset_mask_size ox oy "Off" (is_some mask) _ _ _ Hw Hh)
    as [Hw1 Hh1].
  rewrite (mask_pixel_value ox oy "Off" fill_color invert_mask_output image
             mask _ x y Hin Hmp) by lia.
  rewrite getpixel_offset_mask_clip by lia.
  rewrite paste_source_vacated by (rewrite Hw, Hh; exact Hvac).
  destruct mask_value_ends as [H1 [H2 [H3 H4]]].
  destruct (is_some mask), (String.eqb invert_mask_output "Yes"); assumption.
Qed.

Lemma X6_clip_mask_vacated_witness :
  mask_pixel (apply_image_transformations 1 0 "Off" "0,0,0" "No"
                (Some white_2x2) None) 0 1
  = if String.eqb "No" "Yes" then 1%Q else 0%Q.
Proof.
  apply (X6_clip_mask_vacated (Some white_2x2) None 1 0 "0,0,0" "No" 0 1
           eq_refl); [vm_compute; lia | vm_compute; lia |].
  unfold covered. vm_compute. intros [[H _] _]. apply H. reflexivity.
Defined.



(** X8: with an image and no mask, the returned mask (invert_mask_output
    off) is 1.0 everywhere in wrap mode; in clip mode it is 1.0 exactly on
    the pixels the shifted image lands on and 0.0 on the others. *)
Theorem X8_image_only_mask
    (t : tensor3) (ox oy : Z) (fill_color : string) (x y : nat) :
  (x < Np.shape1 t)%nat -> (y < Np.shape0 t)%nat ->
  mask_pixel (apply_image_transformations ox oy "On" fill_color "No"
                (Some t) None) x y = 1%Q /\
  (covered (Np.shape1 t) (Np.shape0 t) ox oy x y ->
   mask_pixel (apply_image_transformations ox oy "Off" fill_color "No"
                 (Some t) None) x y = 1%Q) /\
  (~ covered (Np.shape1 t) (Np.shape0 t) ox oy x y ->
   mask_pixel (apply_image_transformations ox oy "Off" fill_color "No"
                 (Some t) None) x y = 0%Q).
Proof.
  intros Hx Hy.
  assert (Hpix : forall wrap,
            mask_pixel (apply_image_transformations ox oy wrap fill_color "No"
                          (Some t) None) x y
            = Np.div255
                (getpixel
                   (offset_mask ox oy wrap false (Np.shape1 t) (Np.shape0 t)
                      (new_L (Np.shape1 t) (Np.shape0 t) 255)) x y)).
  { intros wrap.
    destruct (offset_mask_size ox oy wrap false (Np.shape1 t) (Np.shape0 t)
                (new_L (Np.shape1 t) (Np.shape0 t) 255) eq_refl eq_refl)
      as [Hw1 Hh1].
    rewrite (mask_pixel_value ox oy wrap fill_color "No" (Some t) None _ x y
               eq_refl (transformed_mask_image_only ox oy wrap fill_color t))
      by lia.
    reflexivity. }
  rewrite !Hpix. split; [| split].
  - unfold offset_mask. cbn [String.eqb Ascii.eqb Bool.eqb].
    rewrite getpixel_offset by (simpl; lia).
    rewrite getpixel_new_L by (apply mod_index_lt; simpl; lia).
    reflexivity.
  - intros Hcov. rewrite getpixel_offset_mask_clip by lia.
    change (width (new_L (Np.shape1 t) (Np.shape0 t) 255))
      with (Np.shape1 t).
    change (height (new_L (Np.shape1 t) (Np.shape0 t) 255))
      with (Np.shape0 t).
    destruct (paste_source_covered _ _ _ _ _ _ Hcov) as [-> [Hsx Hsy]].
    rewrite getpixel_new_L by assumption. reflexivity.
  - intros Hvac. rewrite getpixel_offset_mask_clip by lia.
    change (width (new_L (Np.shape1 t) (Np.shape0 t) 255))
      with (Np.shape1 t).
    change (height (new_L (Np.shape1 t) (Np.shape0 t) 255))
      with (Np.shape0 t).
    rewrite (paste_source_vacated _ _ _ _ _ _ Hvac). reflexivity.
Qed.

Lemma X8_image_only_mask_witness :
  mask_pixel (apply_image_transformations 1 0 "On" "0,0,0" "No"
                (Some white_2x2) None) 0 1 = 1%Q /\
  mask_pixel (apply_image_transformations 1 0 "Off" "0,0,0" "No"
                (Some white_2x2) None) 0 1 = 0%Q.
Proof.
  assert (Hx : (0 < Np.shape1 white_2x2)%nat) by (vm_compute; lia).
  assert (Hy : (1 < Np.shape0 white_2x2)%nat) by (vm_compute; lia).
  destruct (X8_image_only_mask white_2x2 1 0 "0,0,0" 0 1 Hx Hy)
    as [Hon [_ Hoff]].
  split; [exact Hon |].
  apply Hoff. unfold covered. vm_compute. intros [[H _] _]. apply H.
  reflexivity.
Defined.


(* ------------------------------------------------------------------ *)
(** ** The returned image, pixel by pixel *)

Lemma composite_channel_identity (v : Z) :
  byte v -> Z.shiftr (shift_for_div255 (v * 32640 + 128 * 128)) 7 = v.
Proof.
  intros Hv. apply Z.eqb_eq.
  apply (byte_cases
           (fun v => Z.shiftr (shift_for_div255 (v * 32640 + 128 * 128)) 7
                     =? v)); [| exact Hv].
  vm_compute. reflexivity.
Qed.

(** An opaque source pixel covers the background. *)
Lemma composite_pixel_opaque (dst : RGBA) (r g b : Z) :
  byte r -> byte g -> byte b ->
  composite_pixel dst (r, g, b, 255) = (r, g, b, 255).
Proof.
  intros Hr Hg Hb. destruct dst as [[[dr dg] db] da].
  unfold composite_pixel. cbn [Z.eqb].
  replace (da * (255 - 255)) with 0 by lia.
  change (255 * 255 + 0) with 65025.
  change (255 * 255 * 255 * 128 / 65025) with 32640.
  change (255 * 128 - 32640) with 0.
  rewrite !Z.mul_0_r, !Z.add_0_r.
  rewrite !composite_channel_identity by assumption.
  reflexivity.
Qed.

(** A pixel composited over itself keeps its colour. *)
Lemma composite_pixel_same (p : RGBA) :
  byte_RGBA p -> rgb_of (composite_pixel p p) = rgb_of p.
Proof.
  destruct p as [[[r g] b] a]. intros [Hr [Hg [Hb Ha]]].
  unfold composite_pixel. destruct (a =? 0); [reflexivity |].
  cbv zeta.
  set (coef1 := a * 255 * 255 * 128 / (a * 255 + a * (255 - a))).
  assert (Hsum : forall v, v * coef1 + v * (255 * 128 - coef1) + 128 * 128
                           = v * 32640 + 128 * 128) by (intros; lia).
  unfold rgb_of. rewrite !Hsum.
  rewrite !composite_channel_identity by assumption. reflexivity.
Qed.

(** A transparent source pixel shows the background. *)
Lemma composite_pixel_transparent (dst : RGBA) (r g b : Z) :
  composite_pixel dst (r, g, b, 0) = dst.
Proof.
  destruct dst as [[[dr dg] db] da]. reflexivity.
Qed.

Lemma getpixel_composite_over_fill (fc : list Z) (im : PIL.image RGBA)
    (x y : nat) :
  (x < width im)%nat -> (y < height im)%nat ->
  getpixel (composite_over_fill fc im) x y
  = rgb_of (composite_pixel (ink_RGBA (fill_color_for_composite fc))
              (getpixel im x y)).
Proof.
  intros Hx Hy. unfold composite_over_fill, convert_RGB.
  cbn [width height alpha_composite new_RGBA tabulate].
  rewrite getpixel_tabulate by assumption.
  unfold alpha_composite. cbn [width height new_RGBA tabulate].
  rewrite getpixel_tabulate by assumption.
  unfold new_RGBA. rewrite getpixel_tabulate by assumption.
  reflexivity.
Qed.

(** A returned image value in terms of the image before the composite. *)
Lemma image_pixel_value (ox oy : Z) (wrap fill inv : string)
    (image : option tensor3) (mask : option tensor2) (im : PIL.image RGBA)
    (x y c : nat) :
  is_some image || is_some mask = true ->
  img_pil (transformed ox oy wrap fill image mask) = Some im ->
  (x < width im)%nat -> (y < height im)%nat ->
  image_pixel (apply_image_transformations ox oy wrap fill inv image mask)
    x y c
  = nth c
      (map Np.div255
         (bands_RGB
            (rgb_of (composite_pixel
                       (ink_RGBA (fill_color_for_composite
                                    (_parse_color_string fill)))
                       (getpixel im x y))))) 0%Q.
Proof.
  intros Hin Him Hx Hy.
  destruct (transformed_ok ox oy wrap fill image mask) as [Himg _].
  pose proof (composite_over_fill_sized (_parse_color_string fill) _ _ _
                (Himg im Him)) as [Hwf [Hw Hh]].
  destruct (Himg im Him) as [_ [Hwi Hhi]].
  unfold image_pixel. rewrite apply_image_transformations_some by exact Hin.
  cbn [IMAGE]. rewrite Him. cbn [option_map image_tensor hd].
  unfold toarray_RGB. rewrite map_map_rows.
  rewrite (nth_rows_map
             (fun p : RGB =>
                map Np.div255 (let '(r, g, b) := p in [r; g; b])))
    by (try exact Hwf; lia).
  rewrite getpixel_composite_over_fill by assumption.
  reflexivity.
Qed.

Lemma getpixel_image_to_pil_rgb (t : tensor3) (x y : nat) :
  Np.shape_last t <> 4%nat ->
  (x < Np.shape1 t)%nat -> (y < Np.shape0 t)%nat ->
  getpixel (image_to_pil t) x y
  = (image_byte t x y 0, image_byte t x y 1, image_byte t x y 2, 255).
Proof.
  intros H3 Hx Hy. unfold image_to_pil.
  apply Nat.eqb_neq in H3. rewrite H3.
  assert (Hw : Np.shape1 (map (map (map Np.to_uint8)) t) = Np.shape1 t)
    by (apply shape1_map; intros; apply length_map).
  assert (Hh : Np.shape0 (map (map (map Np.to_uint8)) t) = Np.shape0 t)
    by (unfold Np.shape0; apply length_map).
  unfold convert_RGBA, fromarray_RGB. cbn [width height tabulate].
  rewrite Hw, Hh. rewrite !getpixel_tabulate by assumption.
  rewrite nth_nth_map3. unfold image_byte.
  rewrite <- to_uint8_zero at 1 2 3. rewrite !map_nth. reflexivity.
Qed.

(** X9: with a three-channel image and no mask, in wrap mode, the returned
    image at (x, y), channel c, is the byte of the input image at
    ((x - offset_x) mod W, (y - offset_y) mod H), channel c, over 255: the
    fill colour does not show anywhere. *)
Theorem X9_wrap_image_pixel
    (t : tensor3) (ox oy : Z) (fill_color invert_mask_output : string)
    (x y c : nat) :
  Np.shape_last t <> 4%nat ->
  (x < Np.shape1 t)%nat -> (y < Np.shape0 t)%nat -> (c < 3)%nat ->
  image_pixel (apply_image_transformations ox oy "On" fill_color
                 invert_mask_output (Some t) None) x y c
  = Np.div255
      (image_byte t
         (Z.to_nat ((Z.of_nat x - ox) mod Z.of_nat (Np.shape1 t)))
         (Z.to_nat ((Z.of_nat y - oy) mod Z.of_nat (Np.shape0 t))) c).
Proof.
  intros H3 Hx Hy Hc.
  destruct (image_to_pil_size t) as [Hw Hh].
  assert (Him : img_pil (transformed ox oy "On" fill_color (Some t) None)
                = Some (offset (image_to_pil t) ox oy)).
  { unfold transformed. rewrite initialize_image_only. reflexivity. }
  rewrite (image_pixel_value ox oy "On" fill_color invert_mask_output
             (Some t) None _ x y c eq_refl Him)
    by (change (width (offset (image_to_pil t) ox oy))
          with (width (image_to_pil t));
        change (height (offset (image_to_pil t) ox oy))
          with (height (image_to_pil t)); lia).
  rewrite getpixel_offset by lia. rewrite Hw, Hh.
  rewrite getpixel_image_to_pil_rgb
    by (try exact H3; apply mod_index_lt; lia).
  rewrite composite_pixel_opaque by apply to_uint8_byte.
  destruct c as [| [| [| c]]]; try reflexivity. lia.
Qed.

Lemma X9_wrap_image_pixel_witness :
  image_pixel (apply_image_transformations 1 (-1) "On" "ff0000" "No"
                 (Some colours_2x2) None) 0 0 1
  = Np.div255
      (image_byte colours_2x2
         (Z.to_nat ((Z.of_nat 0 - 1) mod Z.of_nat (Np.shape1 colours_2x2)))
         (Z.to_nat ((Z.of_nat 0 - -1) mod Z.of_nat (Np.shape0 colours_2x2)))
         1).
Proof.
  apply (X9_wrap_image_pixel colours_2x2 1 (-1) "ff0000" "No" 0 0 1);
    vm_compute; lia.
Defined.

Lemma initialize_image (t : tensor3) (mask : option tensor2) :
  let st := initialize (Some t) mask in
  img_pil st = Some (image_to_pil t) /\
  current_width st = Np.shape1 t /\ current_height st = Np.shape0 t.
Proof.
  pose proof (initialize_size (Some t) mask) as Hsize. cbv zeta in *.
  split; [| exact Hsize].
  unfold initialize. simpl.
  destruct mask; simpl;
    repeat match goal with
           | |- context [if ?b then _ else _] => destruct b
           end; reflexivity.
Qed.

Lemma parse_four (s : string) :
  exists r g b a, _parse_color_string s = [r; g; b; a].
Proof.
  pose proof (parse_length s) as Hlen.
  destruct (_parse_color_string s) as [| r [| g [| b [| a [| ? ?]]]]];
    try discriminate Hlen.
  exists r, g, b, a. reflexivity.
Qed.

(** The image after a clip-mode offset, at a pixel nothing is pasted on. *)
Lemma getpixel_offset_image_vacated (ox oy : Z) (fc : list Z) (w h : nat)
    (im : PIL.image RGBA) (x y : nat) :
  (x < w)%nat -> (y < h)%nat ->
  paste_source (width im) (height im) ox oy x y = None ->
  getpixel (offset_image ox oy "Off" fc w h im) x y = ink_RGBA fc.
Proof.
  intros Hx Hy Hsrc. unfold offset_image, paste_mask.
  cbn [String.eqb Ascii.eqb Bool.eqb]. cbn [width height new_RGBA tabulate].
  rewrite getpixel_tabulate by assumption. rewrite Hsrc.
  unfold new_RGBA. rewrite getpixel_tabulate by assumption. reflexivity.
Qed.

(** X10: in clip mode every pixel of the returned image that the shifted
    image does not cover shows the fill colour, each component clipped to
    [0,255] and divided by 255, with or without a mask. *)
Theorem X10_clip_image_vacated
    (t : tensor3) (mask : option tensor2) (ox oy : Z)
    (fill_color invert_mask_output : string) (x y c : nat) :
  (x < Np.shape1 t)%nat -> (y < Np.shape0 t)%nat -> (c < 3)%nat ->
  ~ covered (Np.shape1 t) (Np.shape0 t) ox oy x y ->
  image_pixel (apply_image_transformations ox oy "Off" fill_color
                 invert_mask_output (Some t) mask) x y c
  = Np.div255 (clip8 (nth c (_parse_color_string fill_color) 0)).
Proof.
  intros Hx Hy Hc Hvac.
  destruct (initialize_image t mask) as [Him0 [HW HH]].
  destruct (image_to_pil_size t) as [Hwi Hhi].
  destruct (initialize_mask_some (Some t) mask eq_refl) as [mp0 Hmp0].
  destruct (initialize_ok (Some t) mask) as [_ Hmask0].
  destruct (Hmask0 mp0 Hmp0) as [_ [Hwm Hhm]]. rewrite HW in Hwm.
  rewrite HH in Hhm.
  set (fc := _parse_color_string fill_color).
  set (im1 := offset_image ox oy "Off" fc (Np.shape1 t) (Np.shape0 t)
                (image_to_pil t)).
  set (mp1 := offset_mask ox oy "Off" (is_some mask) (Np.shape1 t)
                (Np.shape0 t) mp0).
  assert (Hsrc : paste_source (Np.shape1 t) (Np.shape0 t) ox oy x y = None)
    by (apply paste_source_vacated; exact Hvac).
  assert (Hp1 : getpixel im1 x y = ink_RGBA fc).
  { apply getpixel_offset_image_vacated; try assumption.
    rewrite Hwi, Hhi. exact Hsrc. }
  assert (Hst : img_pil (transformed ox oy "Off" fill_color (Some t) mask)
                = Some (if is_some mask then putalpha im1 (invert mp1)
                        else im1)).
  { unfold transformed, apply_offset, apply_mask_to_alpha.
    cbn [img_pil mask_pil current_width current_height].
    rewrite Him0, Hmp0, HW, HH. cbn [option_map].
    fold fc. fold im1. fold mp1. destruct (is_some mask); reflexivity. }
  assert (Hw1 : width im1 = Np.shape1 t /\ height im1 = Np.shape0 t)
    by (split; reflexivity).
  destruct Hw1 as [Hw1 Hh1].
  destruct (parse_four fill_color) as [r [g [b [a Hfc]]]]. fold fc in Hfc.
  assert (Hgoal : forall p,
            getpixel (if is_some mask then putalpha im1 (invert mp1)
                      else im1) x y = p ->
            rgb_of (composite_pixel (ink_RGBA (fill_color_for_composite fc)) p)
            = rgb_of (ink_RGBA fc) ->
            image_pixel (apply_image_transformations ox oy "Off" fill_color
                           invert_mask_output (Some t) mask) x y c
            = Np.div255 (clip8 (nth c fc 0))).
  { intros p Hp Hrgb.
    rewrite (image_pixel_value ox oy "Off" fill_color invert_mask_output
               (Some t) mask _ x y c eq_refl Hst)
      by (destruct (is_some mask); simpl; lia).
    fold fc. rewrite Hp, Hrgb, Hfc.
    destruct c as [| [| [| c]]]; try reflexivity. lia. }
  assert (Hcomp : fill_color_for_composite fc = fc)
    by (rewrite Hfc; reflexivity).
  destruct (is_some mask) eqn:Hconn.
  - apply (Hgoal (let '(r0, g0, b0, _) := ink_RGBA fc in (r0, g0, b0, 0))).
    + unfold putalpha. rewrite getpixel_tabulate by lia. rewrite Hp1.
      unfold invert. unfold mp1 at 1 2.
      destruct (offset_mask_size ox oy "Off" true _ _ _ Hwm Hhm) as [-> ->].
      rewrite getpixel_tabulate by lia.
      unfold mp1. rewrite getpixel_offset_mask_clip by assumption.
      rewrite Hwm, Hhm, Hsrc.
      destruct (ink_RGBA fc) as [[[r0 g0] b0] a0]. reflexivity.
    + rewrite Hcomp. destruct (ink_RGBA fc) as [[[r0 g0] b0] a0].
      rewrite composite_pixel_transparent. reflexivity.
  - apply (Hgoal (ink_RGBA fc)); [exact Hp1 |].
    rewrite Hcomp. apply composite_pixel_same, ink_RGBA_bytes.
Qed.

Lemma X10_clip_image_vacated_witness :
  image_pixel (apply_image_transformations 1 0 "Off" "ff0000" "No"
                 (Some colours_2x2) (Some diagonal_mask_2x2)) 0 1 0
  = Np.div255 (clip8 (nth 0 (_parse_color_string "ff0000") 0)).
Proof.
  apply (X10_clip_image_vacated colours_2x2 (Some diagonal_mask_2x2) 1 0
           "ff0000" "No" 0 1 0); try (vm_compute; lia).
  unfold covered. vm_compute. intros [[H _] _]. apply H. reflexivity.
Defined.

(* ------------------------------------------------------------------ *)
(** ** Feeding a returned image back in *)

Lemma to_uint8_div255 (v : Z) : byte v -> Np.to_uint8 (Np.div255 v) = v.
Proof.
  intros Hv. apply Z.eqb_eq.
  apply (byte_cases (fun v => Np.to_uint8 (Np.div255 v) =? v)); [| exact Hv].
  vm_compute. reflexivity.
Qed.

(** On an opaque image the composite is the image without its alpha band,
    whatever the fill colour. *)
Lemma composite_over_fill_opaque (fc : list Z) (im : PIL.image RGBA) :
  (forall x y, byte_RGBA (getpixel im x y)) -> opaque im ->
  composite_over_fill fc im = convert_RGB im.
Proof.
  intros Hbytes Hop. unfold composite_over_fill, convert_RGB.
  cbn [width height alpha_composite new_RGBA tabulate].
  apply tabulate_ext. intros x y Hx Hy.
  unfold alpha_composite. cbn [width height new_RGBA tabulate].
  rewrite getpixel_tabulate by assumption.
  specialize (Hop x y Hx Hy). specialize (Hbytes x y).
  destruct (getpixel im x y) as [[[r g] b] a].
  simpl in Hop. subst a. destruct Hbytes as [Hr [Hg [Hb _]]].
  rewrite composite_pixel_opaque by assumption. reflexivity.
Qed.

Lemma offset_opaque (im : PIL.image RGBA) (ox oy : Z) :
  opaque im -> opaque (offset im ox oy).
Proof.
  intros Hop x y Hx Hy.
  change (width (offset im ox oy)) with (width im) in Hx.
  change (height (offset im ox oy)) with (height im) in Hy.
  rewrite getpixel_offset by assumption.
  apply Hop; apply mod_index_lt; lia.
Qed.

Lemma offset_bytes (im : PIL.image RGBA) (ox oy : Z) :
  (forall x y, byte_RGBA (getpixel im x y)) ->
  forall x y, byte_RGBA (getpixel (offset im ox oy) x y).
Proof.
  intros Him. apply byte_RGBA_tabulate. intros x y. apply Him.
Qed.

(** The returned image of an image-only run in wrap mode. *)
Lemma image_only_wrap_IMAGE (t : tensor3) (ox oy : Z) (fill inv : string) :
  Np.shape_last t <> 4%nat ->
  IMAGE (apply_image_transformations ox oy "On" fill inv (Some t) None)
  = [map (map (map Np.div255))
       (toarray_RGB (convert_RGB (offset (image_to_pil t) ox oy)))].
Proof.
  intros H3.
  rewrite apply_image_transformations_some by reflexivity. cbn [IMAGE].
  assert (Him : img_pil (transformed ox oy "On" fill (Some t) None)
                = Some (offset (image_to_pil t) ox oy)).
  { unfold transformed. rewrite initialize_image_only. reflexivity. }
  rewrite Him. cbn [option_map image_tensor].
  rewrite composite_over_fill_opaque;
    [reflexivity
    | apply offset_bytes, image_to_pil_bytes
    | apply offset_opaque, rgb_input_opaque; exact H3].
Qed.

Lemma shape_last_returned (im : PIL.image RGB) :
  Np.shape_last (map (map (map Np.div255)) (toarray_RGB im)) <> 4%nat.
Proof.
  unfold toarray_RGB.
  destruct (rows im) as [| [| [[r g] b] row] rs]; simpl; lia.
Qed.

(** Converting a returned image back gives the image it was made from. *)
Lemma image_to_pil_returned (im : PIL.image RGBA) :
  well_formed im -> (height im = 0%nat -> width im = 0%nat) ->
  (forall x y, byte_RGBA (getpixel im x y)) -> opaque im ->
  image_to_pil (map (map (map Np.div255)) (toarray_RGB (convert_RGB im)))
  = im.
Proof.
  intros Hwf Hdeg Hbytes Hop.
  set (t' := map (map (map Np.div255)) (toarray_RGB (convert_RGB im))).
  pose proof (shape_last_returned (convert_RGB im)) as H3. fold t' in H3.
  unfold image_to_pil. apply Nat.eqb_neq in H3. rewrite H3.
  assert (Hh : Np.shape0 (map (map (map Np.to_uint8)) t') = height im).
  { unfold Np.shape0, t', toarray_RGB, convert_RGB. simpl.
    rewrite !length_map, length_seq. reflexivity. }
  assert (Hw : Np.shape1 (map (map (map Np.to_uint8)) t') = width im).
  { unfold t', toarray_RGB, convert_RGB. simpl.
    destruct (height im) as [| h]; [simpl; symmetry; apply Hdeg; reflexivity |].
    simpl. rewrite !length_map, length_seq. reflexivity. }
  unfold convert_RGBA, fromarray_RGB. cbn [width height tabulate].
  rewrite Hw, Hh.
  transitivity (tabulate (width im) (height im) (getpixel im));
    [| apply tabulate_getpixel; exact Hwf].
  apply tabulate_ext. intros x y Hx Hy.
  rewrite getpixel_tabulate by assumption.
  rewrite nth_nth_map3.
  assert (Hp : nth x (nth y t' []) []
               = map Np.div255 (bands_RGB (rgb_of (getpixel im x y)))).
  { unfold t', toarray_RGB. rewrite map_map_rows.
    rewrite (nth_rows_map
               (fun p : RGB =>
                  map Np.div255 (let '(r, g, b) := p in [r; g; b])))
      by (try apply well_formed_tabulate; assumption).
    unfold convert_RGB. rewrite getpixel_tabulate by assumption.
    destruct (getpixel im x y) as [[[r g] b] a]. reflexivity. }
  rewrite Hp. specialize (Hop x y Hx Hy). specialize (Hbytes x y).
  destruct (getpixel im x y) as [[[r g] b] a].
  simpl in Hop. subst a. destruct Hbytes as [Hr [Hg [Hb _]]].
  simpl. rewrite !to_uint8_div255 by assumption. reflexivity.
Qed.

(** X11: for a three-channel image without a mask, running the operation
    in wrap mode and running it again on the returned image with the
    negated offsets returns the image that a run with offsets (0, 0)
    returns, that is the input image rounded to bytes; the fill colours and
    inversion settings of the runs do not matter. *)
Theorem X11_wrap_round_trip_image_only
    (t : tensor3) (ox oy : Z) (fill fill' fill0 inv inv' inv0 : string) :
  Np.shape_last t <> 4%nat ->
  let run1 := apply_image_transformations ox oy "On" fill inv (Some t) None in
  IMAGE (apply_image_transformations (- ox) (- oy) "On" fill' inv'
           (Some (squeeze_batch (IMAGE run1))) None)
  = IMAGE (apply_image_transformations 0 0 "On" fill0 inv0 (Some t) None).
Proof.
  intros H3 run1. unfold run1.
  rewrite (image_only_wrap_IMAGE t ox oy fill inv H3). cbn [squeeze_batch].
  rewrite image_only_wrap_IMAGE by apply shape_last_returned.
  rewrite (image_only_wrap_IMAGE t 0 0 fill0 inv0 H3).
  rewrite image_to_pil_returned.
  - rewrite offset_offset, !Z.add_opp_diag_r. reflexivity.
  - apply well_formed_tabulate.
  - change (height (offset (image_to_pil t) ox oy))
      with (height (image_to_pil t)).
    change (width (offset (image_to_pil t) ox oy))
      with (width (image_to_pil t)).
    destruct (image_to_pil_size t) as [-> ->].
    unfold Np.shape0. destruct t; [reflexivity | discriminate].
  - apply offset_bytes, image_to_pil_bytes.
  - apply offset_opaque, rgb_input_opaque. exact H3.
Qed.

Lemma X11_wrap_round_trip_image_only_witness :
  IMAGE (apply_image_transformations (- 1) (- -1) "On" "ff0000" "Yes"
           (Some (squeeze_batch
                    (IMAGE (apply_image_transformations 1 (-1) "On" "0,0,0"
                              "No" (Some colours_2x2) None)))) None)
  = IMAGE (apply_image_transformations 0 0 "On" "bogus" "No"
             (Some colours_2x2) None).
Proof.
  apply (X11_wrap_round_trip_image_only colours_2x2 1 (-1) "0,0,0" "ff0000"
           "bogus" "No" "Yes" "No").
  vm_compute. lia.
Defined.

(** The image after a clip-mode offset, at a pixel an opaque source pixel
    is pasted on. *)
Lemma getpixel_offset_image_covered (ox oy : Z) (fc : list Z) (w h : nat)
    (im : PIL.image RGBA) (x y sx sy : nat) :
  (x < w)%nat -> (y < h)%nat ->
  paste_source (width im) (height im) ox oy x y = Some (sx, sy) ->
  (sx < width im)%nat -> (sy < height im)%nat ->
  byte_RGBA (getpixel im sx sy) -> alpha_of (getpixel im sx sy) = 255 ->
  getpixel (offset_image ox oy "Off" fc w h im) x y = getpixel im sx sy.
Proof.
  intros Hx Hy Hsrc Hsx Hsy Hbytes Hop. unfold offset_image, paste_mask.
  cbn [String.eqb Ascii.eqb Bool.eqb]. cbn [width height new_RGBA tabulate].
  rewrite getpixel_tabulate by assumption. rewrite Hsrc.
  unfold alpha_band. rewrite getpixel_tabulate by assumption.
  destruct (getpixel im sx sy) as [[[r g] b] a].
  simpl in Hop. subst a. destruct Hbytes as [Hr [Hg [Hb Ha]]].
  destruct (getpixel (new_RGBA w h fc) x y) as [[[r' g'] b'] a'].
  simpl. rewrite !blend8_255 by assumption. reflexivity.
Qed.

(** X12: with a three-channel image and no mask, in clip mode, a pixel
    (x, y) that the shifted image covers returns the byte of the input
    image at (x - offset_x, y - offset_y) over 255, whatever the fill
    colour. *)
Theorem X12_clip_image_covered
    (t : tensor3) (ox oy : Z) (fill_color invert_mask_output : string)
    (x y c : nat) :
  Np.shape_last t <> 4%nat ->
  (x < Np.shape1 t)%nat -> (y < Np.shape0 t)%nat -> (c < 3)%nat ->
  covered (Np.shape1 t) (Np.shape0 t) ox oy x y ->
  image_pixel (apply_image_transformations ox oy "Off" fill_color
                 invert_mask_output (Some t) None) x y c
  = Np.div255
      (image_byte t (Z.to_nat (Z.of_nat x - ox)) (Z.to_nat (Z.of_nat y - oy))
         c).
Proof.
  intros H3 Hx Hy Hc Hcov.
  destruct (image_to_pil_size t) as [Hw Hh].
  set (fc := _parse_color_string fill_color).
  assert (Him : img_pil (transformed ox oy "Off" fill_color (Some t) None)
                = Some (offset_image ox oy "Off" fc (Np.shape1 t)
                          (Np.shape0 t) (image_to_pil t))).
  { unfold transformed. rewrite initialize_image_only.
    unfold apply_offset, apply_mask_to_alpha.
    cbn [img_pil mask_pil current_width current_height option_map is_some].
    rewrite Hw, Hh. reflexivity. }
  destruct (paste_source_covered _ _ _ _ _ _ Hcov) as [Hsrc [Hsx Hsy]].
  rewrite (image_pixel_value ox oy "Off" fill_color invert_mask_output
             (Some t) None _ x y c eq_refl Him) by (simpl; lia).
  assert (Hpix : getpixel
                   (offset_image ox oy "Off" fc (Np.shape1 t) (Np.shape0 t)
                      (image_to_pil t)) x y
                 = getpixel (image_to_pil t) (Z.to_nat (Z.of_nat x - ox))
                     (Z.to_nat (Z.of_nat y - oy))).
  { apply getpixel_offset_image_covered; try assumption.
    - rewrite Hw, Hh. exact Hsrc.
    - rewrite Hw. exact Hsx.
    - rewrite Hh. exact Hsy.
    - apply image_to_pil_bytes.
    - apply (rgb_input_opaque t H3); [rewrite Hw | rewrite Hh]; assumption. }
  rewrite Hpix.
  rewrite getpixel_image_to_pil_rgb by assumption.
  rewrite composite_pixel_opaque by apply to_uint8_byte.
  destruct c as [| [| [| c]]]; try reflexivity. lia.
Qed.

Lemma X12_clip_image_covered_witness :
  image_pixel (apply_image_transformations 1 0 "Off" "ff0000" "No"
                 (Some colours_2x2) None) 1 1 1
  = Np.div255
      (image_byte colours_2x2 (Z.to_nat (Z.of_nat 1 - 1))
         (Z.to_nat (Z.of_nat 1 - 0)) 1).
Proof.
  apply (X12_clip_image_covered colours_2x2 1 0 "ff0000" "No" 1 1 1);
    try (vm_compute; lia).
  unfold covered. vm_compute. repeat split; discriminate.
Defined.

(* ------------------------------------------------------------------ *)
(** ** More on the colour parser *)

Section ParserPadding.
Import PyStr PyStrFacts.

Lemma lstrip_spaces_app (p s : str) :
  forallb isspace p = true -> lstrip (p ++ s) = lstrip s.
Proof.
  induction p as [| c p IH]; intros Hp; [reflexivity |].
  simpl in Hp. apply andb_true_iff in Hp. destruct Hp as [Hc Hp].
  simpl. rewrite Hc. apply IH. exact Hp.
Qed.

Lemma forallb_rev {A} (f : A -> bool) (l : list A) :
  forallb f l = true -> forallb f (rev l) = true.
Proof.
  intros Hl. apply forallb_forall. intros x Hx.
  rewrite forallb_forall in Hl. apply Hl, in_rev. exact Hx.
Qed.

Lemma rstrip_app_spaces (s p : str) :
  forallb isspace p = true -> rstrip (s ++ p) = rstrip s.
Proof.
  intros Hp. unfold rstrip. rewrite rev_app_distr.
  rewrite lstrip_spaces_app by (apply forallb_rev; exact Hp). reflexivity.
Qed.

Lemma strip_padding (p1 cs p2 : str) :
  forallb isspace p1 = true -> forallb isspace p2 = true ->
  strip (p1 ++ cs ++ p2) = strip cs.
Proof.
  intros H1 H2. unfold strip. rewrite lstrip_spaces_app by exact H1.
  induction cs as [| c cs IH].
  - simpl. rewrite <- (app_nil_r p2), lstrip_spaces_app by exact H2.
    reflexivity.
  - simpl. destruct (isspace c); [exact IH |].
    apply (rstrip_app_spaces (c :: cs) p2 H2).
Qed.

End ParserPadding.

(** X13: whitespace around a colour string is ignored: padding a string
    on both sides with whitespace characters does not change the parsed
    colour. *)
Theorem X13_parser_ignores_padding (p1 cs p2 : PyStr.str) :
  forallb PyStr.isspace p1 = true -> forallb PyStr.isspace p2 = true ->
  _parse_color_string (PyStr.to_string (p1 ++ cs ++ p2))
  = _parse_color_string (PyStr.to_string cs).
Proof.
  intros H1 H2. unfold _parse_color_string, PyStr.of_string, PyStr.to_string.
  rewrite !list_ascii_of_string_of_list_ascii.
  rewrite strip_padding by assumption. reflexivity.
Qed.

Lemma X13_parser_ignores_padding_witness :
  _parse_color_string
    (PyStr.to_string (PyStr.of_string "  " ++ PyStr.of_string "10,20,30"
                      ++ PyStr.of_string " "))
  = _parse_color_string (PyStr.to_string (PyStr.of_string "10,20,30")).
Proof.
  apply (X13_parser_ignores_padding (PyStr.of_string "  ")
           (PyStr.of_string "10,20,30") (PyStr.of_string " "));
    reflexivity.
Defined.

(** X14: a comma-separated list of decimal numbers with two components, or
    with five or more, is rejected: the parser returns (0, 0, 0, 0). *)
Theorem X14_wrong_component_count (parts : list PyStr.str) :
  forallb dec_component parts = true ->
  (2 <= List.length parts)%nat ->
  List.length parts <> 3%nat -> List.length parts <> 4%nat ->
  _parse_color_string (PyStr.to_string (join comma parts)) = [0; 0; 0; 0].
Proof.
  intros Hall Hlen H3 H4. rewrite parse_joined by assumption.
  apply Nat.eqb_neq in H3. apply Nat.eqb_neq in H4. rewrite H3, H4.
  reflexivity.
Qed.

Lemma X14_wrong_component_count_witness :
  _parse_color_string
    (PyStr.to_string
       (join comma [PyStr.of_string "1"; PyStr.of_string "2";
                    PyStr.of_string "3"; PyStr.of_string "4";
                    PyStr.of_string "5"]))
  = [0; 0; 0; 0].
Proof.
  apply X14_wrong_component_count; [reflexivity | | |]; vm_compute; lia.
Defined.

(** X15: the tuple handed to the composite is always the parsed tuple: the
    parser never returns three components, so the branch of line 170 that
    appends an alpha of 255 is never taken, and the background carries the
    parsed alpha. *)
Theorem X15_composite_fill_is_parsed_fill (fill_color : string) :
  fill_color_for_composite (_parse_color_string fill_color)
  = _parse_color_string fill_color /\
  List.length (_parse_color_string fill_color) <> 3%nat.
Proof.
  pose proof (parse_length fill_color) as Hlen.
  unfold fill_color_for_composite. rewrite Hlen. split; [reflexivity | lia].
Qed.

(** X16: the returned mask does not depend on the fill colour. *)
Theorem X16_mask_independent_of_fill
    (offset_x offset_y : Z) (wrap_around invert_mask_output : string)
    (fill_color fill_color' : string)
    (image : option tensor3) (mask : option tensor2) :
  MASK (apply_image_transformations offset_x offset_y wrap_around fill_color
          invert_mask_output image mask)
  = MASK (apply_image_transformations offset_x offset_y wrap_around
            fill_color' invert_mask_output image mask).
Proof.
  destruct (is_some image || is_some mask)%bool eqn:Hin;
    [| destruct image, mask; try discriminate; reflexivity].
  rewrite !apply_image_transformations_some by exact Hin. cbn [MASK].
  rewrite !transformed_mask.
  destruct (transformed_size offset_x offset_y wrap_around fill_color
              image mask) as [-> ->].
  destruct (transformed_size offset_x offset_y wrap_around fill_color'
              image mask) as [-> ->].
  reflexivity.
Qed.

(* ------------------------------------------------------------------ *)
(** ** A mask of another size than the image *)

Lemma nearest_lt (src dst i : nat) :
  (0 < src)%nat -> (i < dst)%nat -> (nearest src dst i < src)%nat.
Proof.
  intros Hsrc Hi. unfold nearest.
  apply Nat.Div0.div_lt_upper_bound. nia.
Qed.

(** X17: when a non-empty mask and an image are both supplied, the mask
    that enters the offset phase has the size of the image and each of its
    pixels is the byte of some element of the supplied mask: resizing
    introduces no new value. *)
Theorem X17_resized_mask_values
    (t : tensor3) (m : tensor2) (mp : PIL.image L) (x y : nat) :
  (0 < Np.shape1 m)%nat -> (0 < Np.shape0 m)%nat ->
  mask_pil (initialize (Some t) (Some m)) = Some mp ->
  (x < Np.shape1 t)%nat -> (y < Np.shape0 t)%nat ->
  width mp = Np.shape1 t /\ height mp = Np.shape0 t /\
  exists x' y',
    (x' < Np.shape1 m)%nat /\ (y' < Np.shape0 m)%nat /\
    getpixel mp x y = mask_byte m x' y'.
Proof.
  intros Hwm Hhm Hmp Hx Hy.
  destruct (initialize_ok (Some t) (Some m)) as [_ Hmask].
  destruct (Hmask mp Hmp) as [_ [Hw Hh]].
  destruct (initialize_size (Some t) (Some m)) as [HW HH].
  rewrite HW in Hw. rewrite HH in Hh.
  split; [exact Hw | split; [exact Hh |]].
  destruct (image_to_pil_size t) as [Hwi Hhi].
  destruct (mask_to_pil_size m) as [Hwp Hhp].
  revert Hmp. unfold initialize. cbn [option_map is_some size fst snd].
  destruct (negb (size_eqb (size (image_to_pil t)) (size (mask_to_pil m))));
    cbn [mask_pil]; intros Hmp; inversion Hmp; subst mp.
  - exists (nearest (Np.shape1 m) (Np.shape1 t) x),
      (nearest (Np.shape0 m) (Np.shape0 t) y).
    assert (Hx' : (nearest (Np.shape1 m) (Np.shape1 t) x < Np.shape1 m)%nat)
      by (apply nearest_lt; assumption).
    assert (Hy' : (nearest (Np.shape0 m) (Np.shape0 t) y < Np.shape0 m)%nat)
      by (apply nearest_lt; assumption).
    split; [exact Hx' | split; [exact Hy' |]].
    unfold resize_nearest. rewrite Hwi, Hhi.
    rewrite getpixel_tabulate by assumption.
    rewrite Hwp, Hhp. apply getpixel_mask_to_pil; assumption.
  - exists x, y. rewrite Hwp in Hw. rewrite Hhp in Hh.
    split; [lia | split; [lia |]].
    apply getpixel_mask_to_pil; lia.
Qed.

Lemma X17_resized_mask_values_witness :
  exists mp,
    mask_pil (initialize (Some colours_2x2) (Some [[1; 0; 0; 1]]%Q))
    = Some mp /\
    width mp = 2%nat /\ height mp = 2%nat /\
    exists x' y',
      (x' < 4)%nat /\ (y' < 1)%nat /\
      getpixel mp 1 1 = mask_byte [[1; 0; 0; 1]]%Q x' y'.
Proof.
  eexists. split; [reflexivity |].
  apply (X17_resized_mask_values colours_2x2 [[1; 0; 0; 1]]%Q _ 1 1);
    try (vm_compute; lia). reflexivity.
Defined.

(* ------------------------------------------------------------------ *)
(** ** A connected mask hides the image *)

Lemma mask_value_zero (v : Z) :
  byte v -> mask_value true v = 0%Q -> v = 255.
Proof.
  intros Hv H0.
  assert (Hb : (negb (Qeq_bool (mask_value true v) 0) || (v =? 255))%bool
               = true).
  { apply (byte_cases
             (fun v => (negb (Qeq_bool (mask_value true v) 0)
                        || (v =? 255))%bool)); [| exact Hv].
    vm_compute. reflexivity. }
  rewrite H0 in Hb. simpl in Hb. apply Z.eqb_eq. exact Hb.
Qed.

(** X18: with an image and a connected mask, wherever the returned mask
    (invert_mask_output off) is 0.0 the returned image shows the fill
    colour, in wrap mode and in clip mode, whatever invert_mask_output the
    run for the image uses. *)
Theorem X18_masked_pixel_shows_fill
    (t : tensor3) (m : tensor2) (ox oy : Z)
    (wrap_around fill_color invert_mask_output : string) (x y c : nat) :
  (x < Np.shape1 t)%nat -> (y < Np.shape0 t)%nat -> (c < 3)%nat ->
  mask_pixel (apply_image_transformations ox oy wrap_around fill_color "No"
                (Some t) (Some m)) x y = 0%Q ->
  image_pixel (apply_image_transformations ox oy wrap_around fill_color
                 invert_mask_output (Some t) (Some m)) x y c
  = Np.div255 (clip8 (nth c (_parse_color_string fill_color) 0)).
Proof.
  intros Hx Hy Hc Hzero.
  destruct (transformed_alpha ox oy wrap_around fill_color t m)
    as [im [mp [Him [Hmp Halpha]]]].
  destruct (transformed_size ox oy wrap_around fill_color (Some t) (Some m))
    as [HW HH].
  destruct (initialize_size (Some t) (Some m)) as [HW0 HH0].
  rewrite HW0 in HW. rewrite HH0 in HH.
  destruct (transformed_ok ox oy wrap_around fill_color (Some t) (Some m))
    as [Himg Hmask].
  destruct (Himg im Him) as [_ [Hwi Hhi]].
  destruct (Hmask mp Hmp) as [_ [Hwm Hhm]].
  rewrite HW in Hwi, Hwm. rewrite HH in Hhi, Hhm.
  rewrite (mask_pixel_value ox oy wrap_around fill_color "No" (Some t)
             (Some m) mp x y eq_refl Hmp) in Hzero by lia.
  cbn [String.eqb Ascii.eqb Bool.eqb is_some] in Hzero.
  apply mask_value_zero in Hzero;
    [| apply (transformed_mask_bytes _ _ _ _ _ _ _ Hmp)].
  specialize (Halpha x y). rewrite HW, HH, Hzero in Halpha.
  specialize (Halpha Hx Hy).
  rewrite (image_pixel_value ox oy wrap_around fill_color invert_mask_output
             (Some t) (Some m) im x y c eq_refl Him) by lia.
  destruct (getpixel im x y) as [[[r g] b] a]. simpl in Halpha. subst a.
  change (255 - 255) with 0. rewrite composite_pixel_transparent.
  destruct (parse_four fill_color) as [r0 [g0 [b0 [a0 Hfc]]]].
  rewrite Hfc. destruct c as [| [| [| c]]]; try reflexivity. lia.
Qed.

Lemma X18_masked_pixel_shows_fill_witness :
  image_pixel (apply_image_transformations 1 0 "On" "ff0000" "Yes"
                 (Some colours_2x2) (Some diagonal_mask_2x2)) 1 0 0
  = Np.div255 (clip8 (nth 0 (_parse_color_string "ff0000") 0)).
Proof.
  apply (X18_masked_pixel_shows_fill colours_2x2 diagonal_mask_2x2 1 0 "On"
           "ff0000" "Yes" 1 0 0); try (vm_compute; lia).
  vm_compute. reflexivity.
Defined.

(* ------------------------------------------------------------------ *)
(** ** Decimal components with whitespace around them *)

Section PaddedComponents.
Import PyStr PyStrFacts.

















End PaddedComponents.



(* ------------------------------------------------------------------ *)
(** ** A connected mask shows the image where it is black *)

Lemma mask_value_one (v : Z) :
  byte v -> mask_value true v = 1%Q -> v = 0.
Proof.
  intros Hv H1.
  assert (Hb : (negb (Qeq_bool (mask_value true v) 1) || (v =? 0))%bool
               = true).
  { apply (byte_cases
             (fun v => (negb (Qeq_bool (mask_value true v) 1)
                        || (v =? 0))%bool)); [| exact Hv].
    vm_compute. reflexivity. }
  rewrite H1 in Hb. simpl in Hb. apply Z.eqb_eq. exact Hb.
Qed.

(** The two images once the offset and the alpha phases are done, for any
    input with an image. *)
Lemma transformed_form (ox oy : Z) (wrap fill : string) (t : tensor3)
    (mask : option tensor2) :
  exists mp0,
    mask_pil (initialize (Some t) mask) = Some mp0 /\
    width mp0 = Np.shape1 t /\ height mp0 = Np.shape0 t /\
    let fc := _parse_color_string fill in
    let im1 := offset_image ox oy wrap fc (Np.shape1 t) (Np.shape0 t)
                 (image_to_pil t) in
    let mp1 := offset_mask ox oy wrap (is_some mask) (Np.shape1 t)
                 (Np.shape0 t) mp0 in
    img_pil (transformed ox oy wrap fill (Some t) mask)
    = Some (if is_some mask then putalpha im1 (invert mp1) else im1) /\
    mask_pil (transformed ox oy wrap fill (Some t) mask) = Some mp1.
Proof.
  destruct (initialize_image t mask) as [Him0 [HW HH]].
  destruct (initialize_mask_some (Some t) mask eq_refl) as [mp0 Hmp0].
  destruct (initialize_ok (Some t) mask) as [_ Hmask0].
  destruct (Hmask0 mp0 Hmp0) as [_ [Hwm Hhm]]. rewrite HW in Hwm.
  rewrite HH in Hhm.
  exists mp0. split; [exact Hmp0 | split; [exact Hwm | split; [exact Hhm |]]].
  intros fc im1 mp1.
  unfold transformed, apply_offset, apply_mask_to_alpha.
  cbn [img_pil mask_pil current_width current_height].
  rewrite Him0, Hmp0, HW, HH. cbn [option_map].
  fold fc. fold im1. fold mp1. destruct (is_some mask); split; reflexivity.
Qed.

Lemma offset_image_size (ox oy : Z) (wrap : string) (fc : list Z)
    (im : PIL.image RGBA) :
  width (offset_image ox oy wrap fc (width im) (height im) im) = width im /\
  height (offset_image ox oy wrap fc (width im) (height im) im) = height im.
Proof.
  unfold offset_image. destruct (String.eqb wrap "On"); split; reflexivity.
Qed.

(** X20: with a three-channel image and a connected mask, wherever the
    returned mask (invert_mask_output off) is 1.0 the returned image is
    what it is without a mask: the offset image shows there unchanged, in
    wrap mode and in clip mode. *)
Theorem X20_unmasked_pixel_shows_image
    (t : tensor3) (m : tensor2) (ox oy : Z)
    (wrap_around fill_color invert_mask_output : string) (x y c : nat) :
  Np.shape_last t <> 4%nat ->
  (x < Np.shape1 t)%nat -> (y < Np.shape0 t)%nat -> (c < 3)%nat ->
  mask_pixel (apply_image_transformations ox oy wrap_around fill_color "No"
                (Some t) (Some m)) x y = 1%Q ->
  image_pixel (apply_image_transformations ox oy wrap_around fill_color
                 invert_mask_output (Some t) (Some m)) x y c
  = image_pixel (apply_image_transformations ox oy wrap_around fill_color
                   invert_mask_output (Some t) None) x y c.
Proof.
  intros H3 Hx Hy Hc Hone.
  destruct (image_to_pil_size t) as [Hwi Hhi].
  destruct (transformed_form ox oy wrap_around fill_color t (Some m))
    as [mp0 [_ [Hwm [Hhm [Him Hmp]]]]].
  destruct (transformed_form ox oy wrap_around fill_color t None)
    as [mp0' [_ [_ [_ [Him' _]]]]].
  cbv zeta in Him, Hmp, Him'. cbn [is_some] in Him, Hmp, Him'.
  set (fc := _parse_color_string fill_color) in *.
  set (im1 := offset_image ox oy wrap_around fc (Np.shape1 t) (Np.shape0 t)
                (image_to_pil t)) in *.
  set (mp1 := offset_mask ox oy wrap_around true (Np.shape1 t) (Np.shape0 t)
                mp0) in *.
  destruct (offset_mask_size ox oy wrap_around true _ _ _ Hwm Hhm)
    as [Hw1 Hh1]. fold mp1 in Hw1, Hh1.
  assert (Hsz : width im1 = Np.shape1 t /\ height im1 = Np.shape0 t).
  { unfold im1. rewrite <- Hwi, <- Hhi. apply offset_image_size. }
  destruct Hsz as [Hwi1 Hhi1].
  (* the mask is black at the pixel *)
  rewrite (mask_pixel_value ox oy wrap_around fill_color "No" (Some t)
             (Some m) mp1 x y eq_refl Hmp) in Hone by lia.
  cbn [String.eqb Ascii.eqb Bool.eqb is_some] in Hone.
  apply mask_value_one in Hone;
    [| apply (transformed_mask_bytes _ _ _ _ _ _ _ Hmp)].
  (* the pixel of the offset image is opaque *)
  assert (Hbytes : byte_RGBA (getpixel im1 x y)).
  { apply offset_image_bytes. apply image_to_pil_bytes. }
  assert (Halpha : alpha_of (getpixel im1 x y) = 255).
  { unfold im1, offset_image. unfold mp1, offset_mask in Hone.
    destruct (String.eqb wrap_around "On") eqn:Hwrap.
    - apply offset_opaque; [apply rgb_input_opaque; exact H3 | |];
        cbn [offset width height tabulate]; lia.
    - change (getpixel (offset_mask ox oy "Off" true (Np.shape1 t)
                          (Np.shape0 t) mp0) x y = 0) in Hone.
      rewrite getpixel_offset_mask_clip in Hone by assumption.
      rewrite Hwm, Hhm in Hone.
      change (alpha_of (getpixel (offset_image ox oy "Off" fc (Np.shape1 t)
                                    (Np.shape0 t) (image_to_pil t)) x y)
              = 255).
      destruct (paste_source (Np.shape1 t) (Np.shape0 t) ox oy x y)
        as [[sx sy] |] eqn:Hsrc; [| discriminate Hone].
      assert (Hs : (sx < Np.shape1 t)%nat /\ (sy < Np.shape0 t)%nat).
      { unfold paste_source in Hsrc.
        destruct ((0 <=? Z.of_nat x - ox)
                  && (Z.of_nat x - ox <? Z.of_nat (Np.shape1 t))
                  && (0 <=? Z.of_nat y - oy)
                  && (Z.of_nat y - oy <? Z.of_nat (Np.shape0 t)))%bool
          eqn:Hin; [| discriminate Hsrc].
        inversion Hsrc; subst sx sy.
        repeat (apply andb_true_iff in Hin; destruct Hin as [Hin ?]).
        lia. }
      destruct Hs as [Hsx Hsy].
      assert (Hop : alpha_of (getpixel (image_to_pil t) sx sy) = 255)
        by (apply (rgb_input_opaque t H3); [rewrite Hwi | rewrite Hhi];
            assumption).
      rewrite (getpixel_offset_image_covered ox oy fc _ _ (image_to_pil t)
                 x y sx sy); try assumption.
      + rewrite Hwi, Hhi. exact Hsrc.
      + rewrite Hwi. exact Hsx.
      + rewrite Hhi. exact Hsy.
      + apply image_to_pil_bytes. }
  rewrite (image_pixel_value ox oy wrap_around fill_color invert_mask_output
             (Some t) (Some m) _ x y c eq_refl Him)
    by (cbn [putalpha width height tabulate]; lia).
  rewrite (image_pixel_value ox oy wrap_around fill_color invert_mask_output
             (Some t) None _ x y c eq_refl Him') by lia.
  unfold putalpha. rewrite getpixel_tabulate by lia.
  unfold invert. rewrite getpixel_tabulate by lia. rewrite Hone.
  destruct (getpixel im1 x y) as [[[r g] b] a].
  simpl in Halpha. subst a. reflexivity.
Qed.

Lemma X20_unmasked_pixel_shows_image_witness :
  image_pixel (apply_image_transformations 1 0 "On" "ff0000" "Yes"
                 (Some colours_2x2) (Some diagonal_mask_2x2)) 0 0 0
  = image_pixel (apply_image_transformations 1 0 "On" "ff0000" "Yes"
                   (Some colours_2x2) None) 0 0 0.
Proof.
  apply (X20_unmasked_pixel_shows_image colours_2x2 diagonal_mask_2x2 1 0
           "On" "ff0000" "Yes" 0 0 0); try (vm_compute; lia).
  vm_compute. reflexivity.
Defined.
